(** * graphene-sqlalchemy: field construction and connection resolution

    A shallow embedding of [graphene_sqlalchemy/types.py] and
    [graphene_sqlalchemy/fields.py], and the properties of the field
    builder, the type constructor and the connection fields that the
    specification states about them.

    Conventions of the embedding:
    - a Python [dict] used only through its keys is a [gmap]; an
      [OrderedDict] whose order is observable is an association list
      with unique keys ([odict]);
    - objects that the code mutates and shares ([ORMField] instances
      stored in class namespaces) live in a store and are named by
      their location;
    - a function that can raise returns a [res]; what it had written to
      the store before raising stays written;
    - the collaborators that are not part of these two modules (the
      converters and resolvers, the helpers of utils.py, the slicing
      routine of graphql_relay) come in through the classes
      [Converters], [Utils] and [Relay]; [recording] is the instance
      of [Converters] that records how each converter was called. *)

From Stdlib Require Import ZArith Lia.
From stdpp Require Import gmap strings list fin_maps sorting.

Local Open Scope Z_scope.
Local Open Scope string_scope.

(** ** Python values and exceptions *)

(** The values that occur as keyword options. [VObj] is any other
    object (a graphene type, a callable), known by its identity. *)
Inductive value :=
| VNone
| VBool (b : bool)
| VInt (n : Z)
| VStr (s : string)
| VObj (id : nat).

#[global] Instance value_eq_dec : EqDecision value.
Proof. solve_decision. Defined.

Definition is_None (v : value) : bool :=
  match v with VNone => true | _ => false end.

Inductive exn :=
| ValueError (msg : string)
| KeyError (key : string)
| TypeError (msg : string)
| AssertionError (msg : string)
| Exception (msg : string)
| ReferenceError (loc : nat).

#[global] Instance exn_eq_dec : EqDecision exn.
Proof. solve_decision. Defined.

Inductive res (A : Type) :=
| Ok (a : A)
| Raise (e : exn).
Arguments Ok {A} a.
Arguments Raise {A} e.

Definition is_Ok {A} (r : res A) : bool :=
  match r with Ok _ => true | Raise _ => false end.

(** ** Ordered dictionaries *)

Definition odict (V : Type) := list (string * V).

Fixpoint od_get {V} (k : string) (d : odict V) : option V :=
  match d with
  | [] => None
  | (k', v) :: d' => if decide (k = k') then Some v else od_get k d'
  end.

Definition od_contains {V} (k : string) (d : odict V) : bool :=
  match od_get k d with Some _ => true | None => false end.

(** [d[k] = v]: an existing key keeps its position and takes the new
    value, a new key goes to the end. *)
Fixpoint od_set {V} (k : string) (v : V) (d : odict V) : odict V :=
  match d with
  | [] => [(k, v)]
  | (k', v') :: d' =>
      if decide (k = k') then (k, v) :: d' else (k', v') :: od_set k v d'
  end.

Definition od_update {V} (d : odict V) (items : list (string * V)) : odict V :=
  foldl (fun acc kv => od_set kv.1 kv.2 acc) d items.

(** [OrderedDict(items)] *)
Definition OrderedDict {V} (items : list (string * V)) : odict V :=
  od_update [] items.

Definition od_keys {V} (d : odict V) : list string := d.*1.

(** ** ORMField *)

(** [graphene.utils.orderedtype.OrderedType]: an instance takes the
    counter it is given, or else the next value of the class-wide
    counter. A counter of [0] is falsy and counts as not given. *)
Definition OrderedType__init__ (_creation_counter : option Z) (gen_counter : Z)
  : Z * Z :=
  match _creation_counter with
  | Some c => if decide (c = 0) then (gen_counter, gen_counter + 1)
              else (c, gen_counter)
  | None => (gen_counter, gen_counter + 1)
  end.

Record ORMField := mkORMField {
  creation_counter : Z;
  kwargs : gmap string value
}.

Definition common_names : list string :=
  ["model_attr"; "type"; "required"; "description"; "deprecation_reason";
   "batching"].

(** [ORMField.__init__]; the second component is the class-wide
    counter after the call. *)
Definition ORMField__init__
    (model_attr type required description deprecation_reason batching : value)
    (_creation_counter : option Z) (field_kwargs : gmap string value)
    (gen_counter : Z) : ORMField * Z :=
  let '(c, g) := OrderedType__init__ _creation_counter gen_counter in
  let common_kwargs : list (string * value) :=
    [("model_attr", model_attr); ("type", type); ("required", required);
     ("description", description);
     ("deprecation_reason", deprecation_reason); ("batching", batching)] in
  let common_kwargs :=
    filter (fun kv => is_None kv.2 = false) common_kwargs in
  (* self.kwargs = field_kwargs; self.kwargs.update(common_kwargs) *)
  (mkORMField c (foldl (fun m kv => <[kv.1 := kv.2]> m) field_kwargs common_kwargs),
   g).

(** A call of [ORMField] with the keywords [kw] (and [_creation_counter]
    apart): Python
    binds the named parameters, a missing one takes its default [None],
    and the remaining keywords make up [field_kwargs]. *)
Definition call_ORMField (kw : gmap string value) (_creation_counter : option Z)
    (gen_counter : Z) : ORMField * Z :=
  let arg (k : string) := default VNone (kw !! k) in
  ORMField__init__ (arg "model_attr") (arg "type") (arg "required")
    (arg "description") (arg "deprecation_reason") (arg "batching")
    _creation_counter
    (filter (fun kv => kv.1 ∉ common_names) kw)
    gen_counter.

(** ** The relational model, as the metadata provider reports it *)

(** An attribute object of a mapped class, tagged with the class that
    [isinstance] finds, and known by its identity. [descriptor] is any
    other ORM descriptor that [all_orm_descriptors] lists. *)
Inductive orm_attr :=
| ColumnProperty (id : nat)
| CompositeProperty (id : nat)
| hybrid_property (id : nat)
| RelationshipProperty (id : nat)
| descriptor (id : nat).

#[global] Instance orm_attr_eq_dec : EqDecision orm_attr.
Proof. solve_decision. Defined.

Definition is_hybrid_property (a : orm_attr) : bool :=
  match a with hybrid_property _ => true | _ => false end.

(** What [sqlalchemy.inspect(model)] gives: the [items()] of each of
    the four collections. *)
Record Mapper := {
  column_attrs : list (string * orm_attr);
  composites : list (string * orm_attr);
  all_orm_descriptors : list (string * orm_attr);
  relationships : list (string * orm_attr)
}.

Record Model := {
  model_id : nat;
  sqlalchemy_inspect : Mapper
}.

(** ** Declared types *)

(** An entry of a class namespace: an [ORMField] object, by its
    location in the store, or anything else. *)
Inductive class_attr :=
| AttrORMField (l : nat)
| AttrOther.

Record pyclass := {
  __name__ : string;
  __dict__ : list (string * class_attr)
}.

(** A declared type: itself and then its bases, in method resolution
    order. *)
Record ObjType := {
  type_id : nat;
  type_self : pyclass;
  type_bases : list pyclass
}.

Definition __mro__ (obj_type : ObjType) : list pyclass :=
  type_self obj_type :: type_bases obj_type.

Definition type_name (obj_type : ObjType) : string :=
  __name__ (type_self obj_type).

(** ** The collaborators of the field builder *)

Class Converters := {
  Field : Type;
  Resolver : Type;
  convert_sqlalchemy_column :
    orm_attr → nat → Resolver → gmap string value → res Field;
  convert_sqlalchemy_relationship :
    orm_attr → ObjType → value → value → string → gmap string value →
    res Field;
  convert_sqlalchemy_composite :
    orm_attr → nat → Resolver → res Field;
  convert_sqlalchemy_hybrid_method :
    orm_attr → Resolver → gmap string value → res Field;
  get_custom_resolver : ObjType → string → option Resolver;
  get_attr_resolver : ObjType → string → Resolver;
  get_field_as : Field → option Field
}.

(** [yank_fields_from_attrs(attrs, _as=Field, sort=False)] of the
    type-system runtime: the values that mount as a field, under their
    names and in their order. *)
Definition yank_fields_from_attrs `{Converters} (attrs : odict Field)
  : odict Field :=
  omap (fun item => pair item.1 <$> get_field_as item.2) attrs.

(** ** The store *)

Record state := mkState {
  heap : gmap nat ORMField;
  gen_counter : Z;
  registry_orm_fields : gmap (nat * nat * string) orm_attr;
  registry_types : gmap (nat * nat) nat
}.

Definition M (A : Type) : Type := state → res A * state.

Definition ret {A} (a : A) : M A := fun s => (Ok a, s).
Definition raise {A} (e : exn) : M A := fun s => (Raise e, s).
Definition bind {A B} (m : M A) (k : A → M B) : M B :=
  fun s => match m s with
           | (Ok a, s') => k a s'
           | (Raise e, s') => (Raise e, s')
           end.

Declare Scope py_scope.
Delimit Scope py_scope with py.
Notation "x <- m ;; k" := (bind m (fun x => k))
  (at level 100, m at next level, right associativity) : py_scope.
Notation "m ;;; k" := (bind m (fun _ => k))
  (at level 100, right associativity) : py_scope.
Local Open Scope py_scope.

Definition get_heap : M (gmap nat ORMField) := fun s => (Ok (heap s), s).

(** Reading the object at a location. A class namespace of a running
    program only holds live objects; [ReferenceError] marks a store
    that does not hold the location. *)
Definition load (l : nat) : M ORMField :=
  fun s => match heap s !! l with
           | Some o => (Ok o, s)
           | None => (Raise (ReferenceError l), s)
           end.

Definition with_heap (h : gmap nat ORMField) (s : state) : state :=
  mkState h (gen_counter s) (registry_orm_fields s) (registry_types s).

Definition store (l : nat) (o : ORMField) : M unit :=
  fun s => (Ok tt, with_heap (<[l := o]> (heap s)) s).

(** [ORMField(model_attr=name)] inside the builder. *)
Definition new_ORMField (model_attr : value) : M ORMField :=
  fun s =>
    let '(o, g) := ORMField__init__ model_attr VNone VNone VNone VNone VNone
                     None ∅ (gen_counter s) in
    (Ok o, mkState (heap s) g (registry_orm_fields s) (registry_types s)).

(** Modelled from the spec: [Registry.register_orm_field] (registry.py
    is not among the sources) records that the exposed field name of
    the type maps to the attribute descriptor. *)
Definition register_orm_field (registry : nat) (obj_type : ObjType)
    (field_name : string) (attr : orm_attr) : M unit :=
  fun s => (Ok tt,
            mkState (heap s) (gen_counter s)
                    (<[(registry, type_id obj_type, field_name) := attr]>
                       (registry_orm_fields s))
                    (registry_types s)).

(** Modelled from the spec: [Registry.register] (registry.py is not
    among the sources) registers the type into the registry, a
    key-value store from the model to its generated type: the model of
    the type now maps to the type, whatever it mapped to before. *)
Definition register (registry : nat) (model : Model) (obj_type : ObjType)
  : M unit :=
  fun s => (Ok tt,
            mkState (heap s) (gen_counter s) (registry_orm_fields s)
                    (<[(registry, model_id model) := type_id obj_type]>
                       (registry_types s))).

(** ** construct_fields *)

Definition newline : string := String (Ascii.ascii_of_nat 10) EmptyString.

(** [all_model_attrs] *)
Definition all_model_attrs (model : Model) : odict orm_attr :=
  let inspected_model := sqlalchemy_inspect model in
  OrderedDict
    (column_attrs inspected_model ++
     composites inspected_model ++
     filter (fun item => is_hybrid_property item.2 = true)
            (all_orm_descriptors inspected_model) ++
     relationships inspected_model).

(** [auto_orm_field_names] *)
Definition auto_orm_field_names (all_model_attrs : odict orm_attr)
    (only_fields exclude_fields : list string) : list string :=
  filter (fun attr_name =>
            ¬ ((only_fields ≠ [] ∧ attr_name ∉ only_fields)
               ∨ attr_name ∈ exclude_fields))
         (od_keys all_model_attrs).

(** The [ORMField] entries of the namespaces, bases first. *)
Definition custom_orm_fields_items (obj_type : ObjType) : list (string * nat) :=
  base ← reverse (__mro__ obj_type);
  item ← __dict__ base;
  match item.2 with
  | AttrORMField l => [(item.1, l)]
  | AttrOther => []
  end.

(** [sorted(items, key=...)]: a stable sort; an item goes in front of
    the first one that does not compare smaller than it. *)
Fixpoint insert_sorted {A} (key : A → Z) (x : A) (l : list A) : list A :=
  match l with
  | [] => [x]
  | y :: l' => if decide (key x ≤ key y)%Z then x :: y :: l'
               else y :: insert_sorted key x l'
  end.

Definition sorted {A} (key : A → Z) (l : list A) : list A :=
  foldr (insert_sorted key) [] l.

Definition counter_of (h : gmap nat ORMField) (l : nat) : Z :=
  from_option creation_counter 0 (h !! l).

(** [attr_name in all_model_attrs], for the value found under
    ['model_attr']: only a string can be a key of the mapping. *)
Definition lookup_attr (attr_name : value) (all_model_attrs : odict orm_attr)
  : option orm_attr :=
  match attr_name with
  | VStr s => od_get s all_model_attrs
  | _ => None
  end.

Definition set_kwarg (k : string) (v : value) (o : ORMField) : ORMField :=
  mkORMField (creation_counter o) (<[k := v]> (kwargs o)).

Definition del_kwarg (k : string) (o : ORMField) : ORMField :=
  mkORMField (creation_counter o) (delete k (kwargs o)).

(** [orm_field.kwargs.get('model_attr', orm_field_name)] *)
Definition target_attr_name (orm_field_name : string) (orm_field : ORMField)
  : value :=
  default (VStr orm_field_name) (kwargs orm_field !! "model_attr").

(** The loop "Set the model_attr if not set". *)
Fixpoint set_model_attrs (all_model_attrs : odict orm_attr) (obj_type : ObjType)
    (items : list (string * nat)) : M unit :=
  match items with
  | [] => ret tt
  | (orm_field_name, l) :: rest =>
      orm_field <- load l ;;
      let attr_name := target_attr_name orm_field_name orm_field in
      match lookup_attr attr_name all_model_attrs with
      | None =>
          raise (ValueError
                   ("Cannot map ORMField to a model attribute." ++ newline ++
                    "Field: '" ++ type_name obj_type ++ "." ++
                    orm_field_name ++ "'"))
      | Some _ =>
          store l (set_kwarg "model_attr" attr_name orm_field) ;;;
          set_model_attrs all_model_attrs obj_type rest
      end
  end.

(** An entry of [orm_fields]: an override declared on a class, which is
    shared through the store, or a field made by the builder itself,
    which nothing else refers to and which is therefore kept by value. *)
Inductive orm_ref :=
| Declared (l : nat)
| Created (o : ORMField).

(** The locations of the declared overrides among the entries. *)
Definition declared_locs (entries : list (string * orm_ref)) : list nat :=
  omap (fun entry => match entry.2 with
                     | Declared l => Some l
                     | Created _ => None
                     end) entries.

(** Two entries that differ at most in the creation counter of a field
    that the builder made. *)
Definition ref_equiv (r1 r2 : orm_ref) : Prop :=
  match r1, r2 with
  | Declared l1, Declared l2 => l1 = l2
  | Created o1, Created o2 => kwargs o1 = kwargs o2
  | _, _ => False
  end.

Definition entries_equiv (e1 e2 : list (string * orm_ref)) : Prop :=
  Forall2 (fun a b => a.1 = b.1 ∧ ref_equiv a.2 b.2) e1 e2.

(** The loop "Merge automatic fields with custom ORM fields". *)
Fixpoint merge_auto_fields (auto_orm_field_names : list string)
    (orm_fields : odict orm_ref) : M (odict orm_ref) :=
  match auto_orm_field_names with
  | [] => ret orm_fields
  | orm_field_name :: rest =>
      if od_contains orm_field_name orm_fields
      then merge_auto_fields rest orm_fields
      else
        o <- new_ORMField (VStr orm_field_name) ;;
        merge_auto_fields rest (od_set orm_field_name (Created o) orm_fields)
  end.

Definition deref (r : orm_ref) : M ORMField :=
  match r with
  | Declared l => load l
  | Created o => ret o
  end.

Definition write_back (r : orm_ref) (o : ORMField) : M unit :=
  match r with
  | Declared l => store l o
  | Created _ => ret tt
  end.

Definition quote : string := String (Ascii.ascii_of_nat 34) EmptyString.

Section FieldBuilder.
Context `{Converters}.

(** The body of the loop "Build all the field dictionary" for one
    entry, as a function of the override object: the result, and the
    object as the body leaves it (also when it raises). *)
Definition build_field (obj_type : ObjType) (registry : nat)
    (batching connection_field_factory : value)
    (all_model_attrs : odict orm_attr)
    (orm_field_name : string) (orm_field : ORMField)
  : res (Field * orm_attr) * ORMField :=
  match kwargs orm_field !! "model_attr" with
  | None => (Raise (KeyError "model_attr"), orm_field)
  | Some attr_name =>
      let orm_field := del_kwarg "model_attr" orm_field in
      match attr_name, lookup_attr attr_name all_model_attrs with
      | VStr attr_str, Some attr =>
          let resolver :=
            match get_custom_resolver obj_type orm_field_name with
            | Some r => r
            | None => get_attr_resolver obj_type attr_str
            end in
          let with_attr (r : res Field) : res (Field * orm_attr) :=
            match r with Ok field => Ok (field, attr) | Raise e => Raise e end in
          match attr with
          | ColumnProperty _ =>
              (with_attr (convert_sqlalchemy_column attr registry resolver
                            (kwargs orm_field)),
               orm_field)
          | RelationshipProperty _ =>
              let batching_ :=
                default batching (kwargs orm_field !! "batching") in
              let orm_field := del_kwarg "batching" orm_field in
              (with_attr (convert_sqlalchemy_relationship attr obj_type
                            connection_field_factory batching_
                            orm_field_name (kwargs orm_field)),
               orm_field)
          | CompositeProperty _ =>
              if decide (attr_str ≠ orm_field_name ∨ kwargs orm_field ≠ ∅)
              then (Raise (ValueError
                             ("ORMField kwargs for composite fields must be empty. "
                              ++ "Field: " ++ type_name obj_type ++ "." ++
                              orm_field_name)),
                    orm_field)
              else (with_attr (convert_sqlalchemy_composite attr registry
                                 resolver),
                    orm_field)
          | hybrid_property _ =>
              (with_attr (convert_sqlalchemy_hybrid_method attr resolver
                            (kwargs orm_field)),
               orm_field)
          | descriptor _ =>
              (Raise (Exception "Property type is not supported"), orm_field)
          end
      | VStr attr_str, None => (Raise (KeyError attr_str), orm_field)
      | _, _ => (Raise (KeyError ""), orm_field)
      end
  end.

(** The loop "Build all the field dictionary". *)
Fixpoint build_fields (obj_type : ObjType) (registry : nat)
    (batching connection_field_factory : value)
    (all_model_attrs : odict orm_attr)
    (orm_fields : list (string * orm_ref)) (fields : odict Field)
  : M (odict Field) :=
  match orm_fields with
  | [] => ret fields
  | (orm_field_name, r) :: rest =>
      orm_field <- deref r ;;
      let '(result, orm_field') :=
        build_field obj_type registry batching connection_field_factory
          all_model_attrs orm_field_name orm_field in
      write_back r orm_field' ;;;
      match result with
      | Raise e => raise e
      | Ok (field, attr) =>
          register_orm_field registry obj_type orm_field_name attr ;;;
          build_fields obj_type registry batching connection_field_factory
            all_model_attrs rest (od_set orm_field_name field fields)
      end
  end.

(** The store after one round of that loop: the override object is
    written back and the field is recorded in the registry. *)
Definition after_entry (obj_type : ObjType) (registry : nat)
    (orm_field_name : string) (r : orm_ref) (orm_field' : ORMField)
    (attr : orm_attr) (s : state) : state :=
  (register_orm_field registry obj_type orm_field_name attr
     (write_back r orm_field' s).2).2.

Definition construct_fields (obj_type : ObjType) (model : Model)
    (registry : nat) (only_fields exclude_fields : list string)
    (batching connection_field_factory : value) : M (odict Field) :=
  let all_model_attrs := all_model_attrs model in
  let auto_orm_field_names :=
    auto_orm_field_names all_model_attrs only_fields exclude_fields in
  h <- get_heap ;;
  let custom_orm_fields_items :=
    sorted (fun item => counter_of h item.2)
           (custom_orm_fields_items obj_type) in
  set_model_attrs all_model_attrs obj_type custom_orm_fields_items ;;;
  orm_fields <- merge_auto_fields auto_orm_field_names
                  (OrderedDict (prod_map id Declared <$> custom_orm_fields_items)) ;;
  build_fields obj_type registry batching connection_field_factory
    all_model_attrs orm_fields [].

End FieldBuilder.

(** ** A converter collaborator that records how it was called *)

Inductive recorded_resolver :=
| custom_resolver (field_name : string)
| attr_resolver (attr_name : string).

Inductive recorded_field :=
| ColumnField (attr : orm_attr) (registry : nat) (resolver : recorded_resolver)
    (options : gmap string value)
| RelationshipField (attr : orm_attr) (obj_type : nat)
    (connection_field_factory batching : value) (field_name : string)
    (options : gmap string value)
| CompositeField (attr : orm_attr) (registry : nat) (resolver : recorded_resolver)
| HybridField (attr : orm_attr) (resolver : recorded_resolver)
    (options : gmap string value).

#[global] Instance recorded_resolver_eq_dec : EqDecision recorded_resolver.
Proof. solve_decision. Defined.
#[global] Instance recorded_field_eq_dec : EqDecision recorded_field.
Proof. solve_decision. Defined.

(** The keyword options that a conversion function received. *)
Definition passed_options (field : recorded_field) : gmap string value :=
  match field with
  | ColumnField _ _ _ options
  | RelationshipField _ _ _ _ _ options
  | HybridField _ _ options => options
  | CompositeField _ _ _ => ∅
  end.

Definition recording : Converters := {|
  Field := recorded_field;
  Resolver := recorded_resolver;
  convert_sqlalchemy_column attr registry resolver options :=
    Ok (ColumnField attr registry resolver options);
  convert_sqlalchemy_relationship attr obj_type factory batching name options :=
    Ok (RelationshipField attr (type_id obj_type) factory batching name options);
  convert_sqlalchemy_composite attr registry resolver :=
    Ok (CompositeField attr registry resolver);
  convert_sqlalchemy_hybrid_method attr resolver options :=
    Ok (HybridField attr resolver options);
  get_custom_resolver _ _ := None;
  get_attr_resolver _ attr_name := attr_resolver attr_name;
  get_field_as field := Some field
|}.

(** ** SQLAlchemyObjectType *)

(** A connection class: its name, the type it was created for, and
    whether [issubclass(connection, Connection)] holds. *)
Record ConnectionType := {
  connection_name : string;
  connection_node : option nat;
  connection_class_of : option nat;
  is_Connection : bool
}.

(** An interface, with [issubclass(interface, Node)]. *)
Record Interface := {
  interface_id : nat;
  is_Node : bool
}.

(** The [registry] argument: [None], a [Registry] instance, or some
    other (truthy) object. *)
Inductive registry_arg :=
| NoRegistry
| ARegistry (r : nat)
| NotARegistry.

Definition global_registry : nat := 0%nat.

(** [if not registry: registry = get_global_registry()], and then the
    assertion that the registry is a [Registry]: [None] when it fails. *)
Definition checked_registry (registry : registry_arg) : option nat :=
  match registry with
  | NoRegistry => Some global_registry
  | ARegistry r => Some r
  | NotARegistry => None
  end.

(** [connection_class.create_type(name, node=cls)] of the type-system
    runtime; [None] is the class [Connection] itself. *)
Definition create_type (connection_class : option nat) (name : string)
    (node : ObjType) : ConnectionType :=
  {| connection_name := name;
     connection_node := Some (type_id node);
     connection_class_of := connection_class;
     is_Connection := true |}.

Section TypeConstructor.
Context `{Converters}.

Record SQLAlchemyObjectTypeOptions := {
  meta_model : option Model;
  meta_registry : option nat;
  meta_connection : option ConnectionType;
  meta_id : option string;
  meta_fields : option (odict Field)
}.

(** [SQLAlchemyObjectTypeOptions(cls)] *)
Definition new_options : SQLAlchemyObjectTypeOptions :=
  {| meta_model := None; meta_registry := None; meta_connection := None;
     meta_id := None; meta_fields := None |}.

(** The lines [if _meta.fields: _meta.fields.update(sqla_fields)
    else: _meta.fields = sqla_fields]. *)
Definition merge_meta_fields (fields : option (odict Field))
    (sqla_fields : odict Field) : odict Field :=
  match fields with
  | Some (item :: items) => od_update (item :: items) sqla_fields
  | Some [] | None => sqla_fields
  end.

(** [SQLAlchemyObjectType.__init_subclass_with_meta__]; the result is
    the [_meta] argument of the call of the base class. That call is
    taken to return, so the registration follows it at once; the
    messages of the first two assertions are given up to the object
    received, which they end with. [model] is [None] for anything
    that is not a mapped class. *)
Definition __init_subclass_with_meta__ (cls : ObjType)
    (model : option Model) (registry : registry_arg) (skip_registry : bool)
    (only_fields exclude_fields : list string)
    (connection : option ConnectionType) (connection_class : option nat)
    (use_connection : option bool) (interfaces : list Interface)
    (id : option string) (batching connection_field_factory : value)
    (_meta : option SQLAlchemyObjectTypeOptions)
  : M SQLAlchemyObjectTypeOptions :=
  match model with
  | None =>
      raise (AssertionError
               ("You need to pass a valid SQLAlchemy Model in " ++
                type_name cls ++ ".Meta"))
  | Some model =>
      match checked_registry registry with
      | None =>
          raise (AssertionError
                   ("The attribute registry in " ++ type_name cls ++
                    " needs to be an instance of Registry"))
      | Some registry =>
          if decide (only_fields ≠ [] ∧ exclude_fields ≠ [])
          then raise (ValueError
                        "The options 'only_fields' and 'exclude_fields' cannot be both set on the same type.")
          else
            constructed <- construct_fields cls model registry only_fields
                             exclude_fields batching
                             connection_field_factory ;;
            let sqla_fields := yank_fields_from_attrs constructed in
            let use_connection :=
              match use_connection, interfaces with
              | None, _ :: _ => Some (existsb is_Node interfaces)
              | _, _ => use_connection
              end in
            let connection :=
              match use_connection, connection with
              | Some true, None =>
                  Some (create_type connection_class
                          (type_name cls ++ "Connection") cls)
              | _, _ => connection
              end in
            match connection with
            | Some c =>
                if is_Connection c then ret tt
                else raise (AssertionError
                              ("The connection must be a Connection. Received "
                               ++ connection_name c))
            | None => ret tt
            end ;;;
            let _meta := default new_options _meta in
            let _meta :=
              {| meta_model := Some model;
                 meta_registry := Some registry;
                 meta_fields :=
                   Some (merge_meta_fields (meta_fields _meta) sqla_fields);
                 meta_connection := connection;
                 meta_id := Some (match id with
                                  | Some i => if decide (i = "") then "id" else i
                                  | None => "id"
                                  end) |} in
            (if skip_registry then ret tt else register registry model cls) ;;;
            ret _meta
      end
  end.

End TypeConstructor.

(** A Python object, as [isinstance] sees it: the classes of the method
    resolution order of its type. *)
Inductive class_ref :=
| TypeClass (type_id : nat)
| ModelClass (model_id : nat)
| OtherClass (id : nat).

#[global] Instance class_ref_eq_dec : EqDecision class_ref.
Proof. solve_decision. Defined.

Record pyobject := {
  ob_repr : string;
  ob_type_mro : list class_ref
}.

Definition isinstance (o : pyobject) (c : class_ref) : bool :=
  bool_decide (c ∈ ob_type_mro o).

(** An order-by clause: what the [value] of a sort enum member holds. *)
Inductive clause :=
| asc (column : string)
| desc (column : string).

#[global] Instance clause_eq_dec : EqDecision clause.
Proof. solve_decision. Defined.

(** A [sqlalchemy.orm.query.Query], as far as the connection field
    drives it: the entity it selects, the session context it came from
    and the order-by clauses applied so far. *)
Record Query := {
  query_entity : nat;
  query_context : nat;
  order_by_clauses : list clause
}.

(** [query.order_by( *clauses )] adds the clauses after the ones the
    query has. *)
Definition order_by (query : Query) (clauses : list clause) : Query :=
  {| query_entity := query_entity query;
     query_context := query_context query;
     order_by_clauses := order_by_clauses query ++ clauses |}.

(** The helpers of utils.py that the two modules call, and the count
    that the store computes for a query. *)
Class Utils := {
  is_mapped_instance : pyobject → bool;
  utils_get_query : Model → nat → Query;
  sort_argument_for_model : Model → res value;
  count : Query → Z
}.

Section IsTypeOf.
Context `{Utils}.

(** [SQLAlchemyObjectType.is_type_of]; [model] is [cls._meta.model]. *)
Definition is_type_of (cls : ObjType) (model : Model) (root : pyobject)
  : res bool :=
  if isinstance root (TypeClass (type_id cls)) then Ok true
  else if negb (is_mapped_instance root)
  then Raise (Exception ("Received incompatible instance " ++ quote ++
                         ob_repr root ++ quote ++ "."))
  else Ok (isinstance root (ModelClass (model_id model))).

End IsTypeOf.

(** The specification's wording of the last case of [is_type_of]:
    [root] is an instance of exactly the bound model, that is, the
    type of [root] is the model itself. *)
Definition instance_of_exactly (root : pyobject) (model : Model) : Prop :=
  head (ob_type_mro root) = Some (ModelClass (model_id model)).

(** ** Connection fields *)

(** A member of a sort enum: a [str] that carries its order-by clause
    in [value]. *)
Record EnumValue := {
  enum_name : string;
  enum_value : clause
}.

(** The [sort] argument of a query: [None], one enum member, or a list
    of them. *)
Inductive sort_arg :=
| SortNone
| SortOne (sort : EnumValue)
| SortList (sort : list EnumValue).

(** The keyword arguments of a connection field at query time. *)
Record connection_args := {
  arg_sort : sort_arg;
  arg_first : option Z;
  arg_last : option Z;
  arg_after : option string;
  arg_before : option string
}.

(** What a resolver hands back, once it is there and is not [None]: a
    query, or a list held in memory. *)
Inductive resolved_value :=
| AQuery (query : Query)
| AList (items : list nat).

(** A connection object: what the slicing routine built, and the two
    attributes that [resolve_connection] sets on it. *)
Record connection_obj (P : Type) := {
  connection_payload : P;
  iterable : resolved_value;
  length : Z
}.
Arguments connection_payload {P} _.
Arguments iterable {P} _.
Arguments length {P} _.

(** The slicing routine of graphql_relay. *)
Class Relay := {
  Page : Type;
  connection_from_list_slice :
    resolved_value → connection_args → Z → Z → Z → ConnectionType → res Page
}.

Section ConnectionField.
Context `{Utils} `{Relay}.

(** [UnsortedSQLAlchemyConnectionField.get_query] *)
Definition get_query (model : Model) (info_context : nat) (sort : sort_arg)
  : Query :=
  let query := utils_get_query model info_context in
  match sort with
  | SortNone => query
  | SortOne sort => order_by query [enum_value sort]
  | SortList sort => order_by query (enum_value <$> sort)
  end.

(** [UnsortedSQLAlchemyConnectionField.resolve_connection];
    [resolved] is [None] when the resolver returned nothing. *)
Definition resolve_connection (connection_type : ConnectionType)
    (model : Model) (info_context : nat) (args : connection_args)
    (resolved : option resolved_value) : res (connection_obj Page) :=
  let resolved :=
    match resolved with
    | None => AQuery (get_query model info_context (arg_sort args))
    | Some resolved => resolved
    end in
  let _len :=
    match resolved with
    | AQuery query => count query
    | AList items => Z.of_nat (List.length items)
    end in
  match connection_from_list_slice resolved args 0 _len _len connection_type with
  | Raise e => Raise e
  | Ok connection =>
      Ok {| connection_payload := connection;
            iterable := resolved;
            length := _len |}
  end.

End ConnectionField.

(** The [type] argument of a connection field: a subclass of
    [Connection], with the model at the end of
    [type.Edge.node._type._meta.model] when those attributes exist;
    another class; or something that is not a class. *)
Inductive field_type :=
| ConnectionClass (name : string) (node_model : option Model)
| OtherType (name : string)
| NotAClass.

Section SortingConnectionField.
Context `{Utils}.

Definition sort_argument_error (name : string) : exn :=
  Exception
    ("Cannot create sort argument for " ++ name ++
     ". A model is required. Set the " ++ quote ++ "sort" ++ quote ++
     " argument to None to disabling the creation of the sort query argument").

(** [SQLAlchemyConnectionField.__init__], up to the call of the base
    class, whose keyword arguments are the result. *)
Definition SQLAlchemyConnectionField__init__ (type : field_type)
    (kwargs : gmap string value) : res (gmap string value) :=
  match kwargs !! "sort" with
  | None =>
      match type with
      | NotAClass => Raise (TypeError "issubclass() arg 1 must be a class")
      | OtherType _ => Ok kwargs
      | ConnectionClass name node_model =>
          let failed := Raise (sort_argument_error name) in
          match node_model with
          | None => failed
          | Some model =>
              match sort_argument_for_model model with
              | Raise _ => failed
              | Ok argument => Ok (<["sort" := argument]> kwargs)
              end
          end
      end
  | Some VNone => Ok (delete "sort" kwargs)
  | Some _ => Ok kwargs
  end.

End SortingConnectionField.


(** * The rest of the two modules *)

(** ** Exceptions and results outside the field builder *)

Inductive py_error :=
| IndexError (msg : string)
| AttributeError (msg : string)
| Builtin (e : exn).

Inductive outcome (A : Type) :=
| Returns (a : A)
| Fails (e : py_error).
Arguments Returns {A} a.
Arguments Fails {A} e.

(** The message of the [ValueError] of the loop that sets model_attr. *)
Definition cannot_map_message (obj_type : ObjType) (orm_field_name : string)
  : string :=
  "Cannot map ORMField to a model attribute." ++ newline ++
  "Field: '" ++ type_name obj_type ++ "." ++ orm_field_name ++ "'".

(** ** SQLAlchemyObjectType.resolve_id *)

(** What [resolve_id] returns: the bare key, or the tuple of the keys. *)
Inductive id_value :=
| IdScalar (key : value)
| IdTuple (keys : list value).

(** [SQLAlchemyObjectType.resolve_id]; [keys] is what
    [primary_key_from_instance] gives for the instance. *)
Definition resolve_id (keys : list value) : outcome id_value :=
  if decide (1 < List.length keys)%nat then Returns (IdTuple keys)
  else match keys with
       | key :: _ => Returns (IdScalar key)
       | [] => Fails (IndexError "list index out of range")
       end.

(** ** UnsortedSQLAlchemyConnectionField.type *)

Section FieldType.
Context `{Converters}.



End FieldType.

(** ** UnsortedSQLAlchemyConnectionField.connection_resolver *)

(** A promise, by what it settles to. *)
Inductive promise (A : Type) :=
| Fulfilled (a : A)
| Rejected (e : exn).
Arguments Fulfilled {A} a.
Arguments Rejected {A} e.

(** A value that is there, or a thenable. *)
Inductive eventual (A : Type) :=
| Plain (a : A)
| Thenable (p : promise A).
Arguments Plain {A} a.
Arguments Thenable {A} p.

(** [Promise.resolve(p).then(on_resolve)]: the continuation runs on the
    value of a fulfilled promise, and what it raises rejects the new
    promise. *)
Definition promise_then {A B} (p : promise A) (on_resolve : A → res B)
  : promise B :=
  match p with
  | Fulfilled a =>
      match on_resolve a with
      | Ok b => Fulfilled b
      | Raise e => Rejected e
      end
  | Rejected e => Rejected e
  end.

(** What the caller of a resolver gets in the end: the value, or the
    error, be it raised at once or the reason of a rejected promise. *)
Definition settled {A} (r : res (eventual A)) : res A :=
  match r with
  | Ok (Plain a) | Ok (Thenable (Fulfilled a)) => Ok a
  | Ok (Thenable (Rejected e)) | Raise e => Raise e
  end.

Section ConnectionResolver.
Context `{Utils} `{Relay}.

(** [UnsortedSQLAlchemyConnectionField.connection_resolver] *)
Definition connection_resolver
    (resolver : pyobject → nat → connection_args →
                res (eventual (option resolved_value)))
    (connection_type : ConnectionType) (model : Model)
    (root : pyobject) (info_context : nat) (args : connection_args)
  : res (eventual (connection_obj Page)) :=
  match resolver root info_context args with
  | Raise e => Raise e
  | Ok resolved =>
      let on_resolve :=
        resolve_connection connection_type model info_context args in
      match resolved with
      | Thenable p => Ok (Thenable (promise_then p on_resolve))
      | Plain value =>
          match on_resolve value with
          | Ok connection => Ok (Plain connection)
          | Raise e => Raise e
          end
      end
  end.

End ConnectionResolver.

(** ** The connection field factory of the module *)

(** A relationship, as far as the factories read it:
    [relationship.mapper.entity]. *)
Record Relationship := {
  relationship_key : string;
  mapper_entity : Model
}.

(** A generated type, as far as the factories read it:
    [_type._meta.connection]. *)
Record TypeInfo := {
  info_name : string;
  info_connection : option ConnectionType
}.

(** A connection field: the [UnsortedSQLAlchemyConnectionField] made
    for a type argument, or the field of a custom factory. *)
Inductive connection_field :=
| UnsortedField (type : option ConnectionType)
| CustomField (id : nat).

(** [Registry.get_type_for_model] of registry.py, which is not among
    the sources: the type registered for the model, or [None]. *)
Class RegistryLookup := {
  get_type_for_model : nat → Model → option TypeInfo
}.

Definition Factory : Type := Relationship → nat → outcome connection_field.

Section ConnectionFieldFactory.
Context `{RegistryLookup}.

Definition default_connection_field_factory : Factory :=
  fun relationship registry =>
    let model := mapper_entity relationship in
    match get_type_for_model registry model with
    | None => Fails (AttributeError "'NoneType' object has no attribute '_meta'")
    | Some _type => Returns (UnsortedField (info_connection _type))
    end.

(** The module: its global factory, and what it has logged. *)
Record module_state := {
  __connection_field_factory : Factory;
  log : list string
}.

(** The module after import. *)
Definition module_init : module_state :=
  {| __connection_field_factory := default_connection_field_factory;
     log := [] |}.

Definition create_connection_field (relationship : Relationship)
    (registry : nat) (m : module_state) : outcome connection_field :=
  __connection_field_factory m relationship registry.

Definition register_connection_field_factory (connection_factory : Factory)
    (m : module_state) : module_state :=
  {| __connection_field_factory := connection_factory; log := log m |}.

Definition unregister_connection_field_factory (m : module_state)
  : module_state :=
  {| __connection_field_factory := default_connection_field_factory;
     log := log m |}.

Definition log_warn (msg : string) (m : module_state) : module_state :=
  {| __connection_field_factory := __connection_field_factory m;
     log := log m ++ [msg] |}.

(** The closure that [registerConnectionFieldFactory] registers. *)
Definition old_factory_method_wrapper
    (factoryMethod : option TypeInfo → outcome connection_field) : Factory :=
  fun relationship registry =>
    let model := mapper_entity relationship in
    let _type := get_type_for_model registry model in
    factoryMethod _type.

Definition registerConnectionFieldFactory
    (factoryMethod : option TypeInfo → outcome connection_field)
    (m : module_state) : module_state :=
  let m :=
    log_warn
      ("registerConnectionFieldFactory is deprecated and will be removed in the next "
       ++ "major version. Use register_connection_field_factory instead.") m in
  register_connection_field_factory (old_factory_method_wrapper factoryMethod) m.

Definition unregisterConnectionFieldFactory (m : module_state) : module_state :=
  let m :=
    log_warn
      ("registerConnectionFieldFactory is deprecated and will be removed in the next "
       ++ "major version. Use unregister_connection_field_factory instead.") m in
  unregister_connection_field_factory m.

(** A call of one of the four functions that set the factory. *)
Inductive factory_call :=
| call_register (connection_factory : Factory)
| call_unregister
| call_registerOld (factoryMethod : option TypeInfo → outcome connection_field)
| call_unregisterOld.

Definition do_call (m : module_state) (c : factory_call) : module_state :=
  match c with
  | call_register f => register_connection_field_factory f m
  | call_unregister => unregister_connection_field_factory m
  | call_registerOld f => registerConnectionFieldFactory f m
  | call_unregisterOld => unregisterConnectionFieldFactory m
  end.

Definition is_deprecated (c : factory_call) : bool :=
  match c with
  | call_registerOld _ | call_unregisterOld => true
  | _ => false
  end.

(** The factory that a call leaves in place. *)
Definition factory_of_call (c : factory_call) : Factory :=
  match c with
  | call_register f => f
  | call_registerOld f => old_factory_method_wrapper f
  | call_unregister | call_unregisterOld => default_connection_field_factory
  end.

End ConnectionFieldFactory.

(** ** What the type constructor decides about the connection *)

(** Whether the type is to have a connection: the flag when it is
    given, and else whether one of the interfaces is a node. *)
Definition wants_connection (use_connection : option bool)
    (interfaces : list Interface) : bool :=
  match use_connection with
  | Some flag => flag
  | None => existsb is_Node interfaces
  end.

(** [id or "id"] *)
Definition id_or_default (id : option string) : string :=
  match id with
  | Some i => if decide (i = "") then "id" else i
  | None => "id"
  end.

(** The warning that a call logs, if it logs one. *)
Definition warning_of_call (c : factory_call) : option string :=
  match c with
  | call_registerOld _ =>
      Some ("registerConnectionFieldFactory is deprecated and will be removed in the next "
            ++ "major version. Use register_connection_field_factory instead.")
  | call_unregisterOld =>
      Some ("registerConnectionFieldFactory is deprecated and will be removed in the next "
            ++ "major version. Use unregister_connection_field_factory instead.")
  | call_register _ | call_unregister => None
  end.

(** * Example inputs *)

(** ** Collaborators *)

Definition has_model_class (o : pyobject) : bool :=
  existsb (fun c => match c with ModelClass _ => true | _ => false end)
          (ob_type_mro o).

Definition utils_example : Utils := {|
  is_mapped_instance := has_model_class;
  utils_get_query model context :=
    {| query_entity := model_id model; query_context := context;
       order_by_clauses := [] |};
  sort_argument_for_model model := Ok (VObj (model_id model));
  count query := 10
|}.

(** A slicing routine that keeps the window it was asked for. *)
Definition relay_example : Relay := {|
  Page := Z * Z;
  connection_from_list_slice resolved args slice_start list_length
      list_slice_length connection_type :=
    match arg_first args with
    | Some n => if decide (n < 0)
                then Raise (AssertionError "Argument first must be a non-negative integer")
                else Ok (slice_start, Z.min n list_length)
    | None => Ok (slice_start, list_length)
    end
|}.

(** ** Models *)

(** Three plain columns. *)
Definition model_abc : Model := {|
  model_id := 1;
  sqlalchemy_inspect := {|
    column_attrs := [("a", ColumnProperty 1); ("b", ColumnProperty 2);
                     ("c", ColumnProperty 3)];
    composites := [];
    all_orm_descriptors := [];
    relationships := []
  |}
|}.

(** One attribute of each kind, and the descriptors of all of them. *)
Definition model_reporter : Model := {|
  model_id := 2;
  sqlalchemy_inspect := {|
    column_attrs := [("id", ColumnProperty 1); ("first_name", ColumnProperty 2)];
    composites := [("composite_prop", CompositeProperty 3)];
    all_orm_descriptors :=
      [("hybrid_prop", hybrid_property 4); ("id", descriptor 5);
       ("first_name", descriptor 6); ("articles", descriptor 7)];
    relationships := [("articles", RelationshipProperty 8)]
  |}
|}.

(** ** Connection fields *)

Definition name_desc : EnumValue :=
  {| enum_name := "name_desc"; enum_value := desc "name" |}.
Definition id_asc : EnumValue :=
  {| enum_name := "id_asc"; enum_value := asc "id" |}.

Definition args_sorted : connection_args := {|
  arg_sort := SortList [name_desc; id_asc];
  arg_first := Some 3; arg_last := None;
  arg_after := None; arg_before := None
|}.

Definition reporter_connection : ConnectionType := {|
  connection_name := "ReporterConnection";
  connection_node := Some 7%nat;
  connection_class_of := None;
  is_Connection := true
|}.

(** ** Objects *)

(** An instance of a model that subclasses [model_abc] (joined-table
    inheritance, say): its type is model 5, whose base is model 1. *)
Definition sub_instance : pyobject := {|
  ob_repr := "<Sub 1>";
  ob_type_mro := [ModelClass 5; ModelClass 1; OtherClass 0]
|}.

Definition unmapped_instance : pyobject := {|
  ob_repr := "{}";
  ob_type_mro := [OtherClass 9; OtherClass 0]
|}.

(** ** Declared types and stores *)

(** A type without overrides. *)
Definition type_plain : ObjType := {|
  type_id := 7;
  type_self := {| __name__ := "ReporterType"; __dict__ := [("Meta", AttrOther)] |};
  type_bases := [{| __name__ := "SQLAlchemyObjectType"; __dict__ := [] |}]
|}.

(** A type that overrides the column c, and the store with its
    override object. *)
Definition type_override_c : ObjType := {|
  type_id := 8;
  type_self := {| __name__ := "AbcType";
                  __dict__ := [("Meta", AttrOther); ("c", AttrORMField 0)] |};
  type_bases := [{| __name__ := "SQLAlchemyObjectType"; __dict__ := [] |}]
|}.

Definition state_override_c : state := {|
  heap := {[ 0%nat := mkORMField 1 {[ "description" := VStr "kept" ]} ]};
  gen_counter := 2;
  registry_orm_fields := ∅;
  registry_types := ∅
|}.

Definition state_empty : state := {|
  heap := ∅;
  gen_counter := 1;
  registry_orm_fields := ∅;
  registry_types := ∅
|}.

(** A field that the type-system runtime supplied under the name a,
    and the options object that carries it. *)
Definition declared_a : @Field recording :=
  HybridField (hybrid_property 99) (custom_resolver "a") ∅.

Definition meta_declared : @SQLAlchemyObjectTypeOptions recording := {|
  meta_model := None; meta_registry := None; meta_connection := None;
  meta_id := None;
  meta_fields := Some [("a", declared_a); ("extra", declared_a)]
|}.

(** The fields that the builder generates for [model_abc] without
    overrides, and the options after the construction of [type_plain]
    with [meta_declared]. *)
Definition column_field (id : nat) (name : string) : @Field recording :=
  ColumnField (ColumnProperty id) 0 (attr_resolver name) ∅.

Definition generated_abc : odict (@Field recording) :=
  [("a", column_field 1 "a"); ("b", column_field 2 "b");
   ("c", column_field 3 "c")].

Definition options_abc : @SQLAlchemyObjectTypeOptions recording := {|
  meta_model := Some model_abc; meta_registry := Some 0%nat;
  meta_connection := None; meta_id := Some "id";
  meta_fields :=
    Some [("a", column_field 1 "a"); ("extra", declared_a);
          ("b", column_field 2 "b"); ("c", column_field 3 "c")]
|}.

(** ** An inheritance chain *)






(** ** Overrides that name another attribute *)

(** A type that exposes the column a under the name b: its override b
    (the object at 0) is declared with [model_attr="a"]. *)
Definition type_renamed : ObjType := {|
  type_id := 10;
  type_self := {| __name__ := "RenamedType";
                  __dict__ := [("Meta", AttrOther); ("b", AttrORMField 0)] |};
  type_bases := [{| __name__ := "SQLAlchemyObjectType"; __dict__ := [] |}]
|}.

(** The same, under the name y, which is not an attribute of the
    model. *)
Definition type_renamed_y : ObjType := {|
  type_id := 11;
  type_self := {| __name__ := "RenamedType";
                  __dict__ := [("Meta", AttrOther); ("y", AttrORMField 0)] |};
  type_bases := [{| __name__ := "SQLAlchemyObjectType"; __dict__ := [] |}]
|}.

Definition state_renamed : state := {|
  heap := {[ 0%nat := mkORMField 1 {[ "model_attr" := VStr "a" ]} ]};
  gen_counter := 2;
  registry_orm_fields := ∅;
  registry_types := ∅
|}.

Definition fields_override_c : odict (@Field recording) :=
  [("c", ColumnField (ColumnProperty 3) 0 (attr_resolver "c")
           {[ "description" := VStr "kept" ]});
   ("a", column_field 1 "a"); ("b", column_field 2 "b")].

(** ** Overrides on a composite and on a relationship *)

(** [ReporterType] overrides its composite with a description (the
    object at 0) and its relationship with [batching=True] (the object
    at 1). *)
Definition type_composite : ObjType := {|
  type_id := 12;
  type_self := {| __name__ := "ReporterType";
                  __dict__ := [("composite_prop", AttrORMField 0)] |};
  type_bases := [{| __name__ := "SQLAlchemyObjectType"; __dict__ := [] |}]
|}.

Definition type_batching : ObjType := {|
  type_id := 13;
  type_self := {| __name__ := "ReporterType";
                  __dict__ := [("articles", AttrORMField 1)] |};
  type_bases := [{| __name__ := "SQLAlchemyObjectType"; __dict__ := [] |}]
|}.

Definition state_reporter : state := {|
  heap := {[ 0%nat := mkORMField 1 {[ "description" := VStr "both names" ]};
             1%nat := mkORMField 2 {[ "batching" := VBool true ]} ]};
  gen_counter := 3;
  registry_orm_fields := ∅;
  registry_types := ∅
|}.


(** ** Two overrides and a selection *)

(** [AbcType] overrides the column b (the object at 0, created
    second) and exposes the column a under the name z (the object at
    1, created first). *)
Definition type_two_overrides : ObjType := {|
  type_id := 14;
  type_self := {| __name__ := "AbcType";
                  __dict__ := [("Meta", AttrOther); ("b", AttrORMField 0);
                               ("z", AttrORMField 1)] |};
  type_bases := [{| __name__ := "SQLAlchemyObjectType"; __dict__ := [] |}]
|}.

Definition state_two_overrides : state := {|
  heap := {[ 0%nat := mkORMField 5 {[ "description" := VStr "second" ]};
             1%nat := mkORMField 2 {[ "model_attr" := VStr "a" ]} ]};
  gen_counter := 6;
  registry_orm_fields := ∅;
  registry_types := ∅
|}.

(** The fields of [type_two_overrides] over [model_abc] with
    [only_fields = ("c",)]. *)
Definition fields_two_overrides : odict (@Field recording) :=
  [("z", ColumnField (ColumnProperty 1) 0 (attr_resolver "a") ∅);
   ("b", ColumnField (ColumnProperty 2) 0 (attr_resolver "b")
           {[ "description" := VStr "second" ]});
   ("c", column_field 3 "c")].

(** ** A relationship with batching *)

Definition field_articles : @Field recording :=
  RelationshipField (RelationshipProperty 8) 13 VNone (VBool true) "articles" ∅.

(** ** A node type *)

Definition node_interface : Interface := {| interface_id := 1; is_Node := true |}.

Definition connection_of_plain : ConnectionType := {|
  connection_name := "ReporterTypeConnection";
  connection_node := Some 7%nat;
  connection_class_of := None;
  is_Connection := true
|}.

(** The options of [type_plain] over [model_abc], constructed with the
    node interface. *)
Definition options_node : @SQLAlchemyObjectTypeOptions recording := {|
  meta_model := Some model_abc; meta_registry := Some 0%nat;
  meta_connection := Some connection_of_plain; meta_id := Some "id";
  meta_fields := Some generated_abc
|}.

(** * Properties *)

Local Open Scope py_scope.
Local Open Scope list_scope.

(** ** Ordered dictionaries *)

Section OdictFacts.
Context {V : Type}.
Implicit Types (d items : odict V) (k : string) (v : V).

Lemma od_get_None k d : od_get k d = None ↔ k ∉ od_keys d.
Proof.
  unfold od_keys. induction d as [|[k' v'] d IH]; simpl.
  - split; [intros _; apply not_elem_of_nil | done].
  - case_decide; subst.
    + split; [done | intros Hn; exfalso; apply Hn; left].
    + rewrite IH, not_elem_of_cons. tauto.
Qed.

Lemma od_get_Some_elem k v d : od_get k d = Some v → (k, v) ∈ d.
Proof.
  induction d as [|[k' v'] d IH]; simpl; [done|].
  case_decide; subst.
  - intros [= ->]. left.
  - intros Hg. right. auto.
Qed.

Lemma od_get_is_Some k d : is_Some (od_get k d) ↔ k ∈ od_keys d.
Proof.
  rewrite <- not_eq_None_Some, od_get_None.
  destruct (decide (k ∈ od_keys d)); tauto.
Qed.

Lemma od_contains_true k d : od_contains k d = true ↔ k ∈ od_keys d.
Proof.
  unfold od_contains. rewrite <- od_get_is_Some.
  destruct (od_get k d); split; try done; intros [? ?]; done.
Qed.

Lemma od_set_fresh k v d : k ∉ od_keys d → od_set k v d = d ++ [(k, v)].
Proof.
  unfold od_keys. induction d as [|[k' v'] d IH]; simpl; [done|].
  rewrite not_elem_of_cons. intros [Hne Hni].
  case_decide; [done|]. by rewrite IH.
Qed.

Lemma od_get_set k k' v d :
  od_get k' (od_set k v d) = if decide (k' = k) then Some v else od_get k' d.
Proof.
  induction d as [|[k0 v0] d IH]; simpl.
  - repeat case_decide; congruence.
  - repeat (case_decide; simpl; subst); try congruence; auto.
Qed.

Lemma od_keys_set k v d :
  od_keys (od_set k v d) =
  if decide (k ∈ od_keys d) then od_keys d else od_keys d ++ [k].
Proof.
  unfold od_keys. induction d as [|[k0 v0] d IH]; [done|].
  cbn [od_set]. rewrite fmap_cons. cbn [fst].
  destruct (decide (k = k0)) as [->|Hne]; rewrite fmap_cons; cbn [fst].
  - rewrite decide_True by left. done.
  - rewrite IH. destruct (decide (k ∈ d.*1)).
    + rewrite decide_True by (by right). done.
    + rewrite decide_False; [done|]. rewrite not_elem_of_cons; tauto.
Qed.

Lemma od_set_NoDup k v d : NoDup (od_keys d) → NoDup (od_keys (od_set k v d)).
Proof.
  intros Hd. rewrite od_keys_set. case_decide; [done|].
  apply NoDup_app. split_and!; [done | | apply NoDup_singleton].
  intros x Hx Hx'. apply list_elem_of_singleton in Hx'. by subst.
Qed.

Lemma od_update_NoDup d items :
  NoDup (od_keys d) → NoDup (od_keys (od_update d items)).
Proof.
  unfold od_update. revert d.
  induction items as [|[k v] items IH]; intros d Hd; simpl; [done|].
  apply IH. by apply od_set_NoDup.
Qed.

Lemma od_update_fresh d items :
  NoDup (od_keys d ++ items.*1) → od_update d items = d ++ items.
Proof.
  unfold od_update, od_keys. revert d.
  induction items as [|[k v] items IH]; intros d Hnd; simpl.
  - by rewrite app_nil_r.
  - simpl in Hnd. rewrite od_set_fresh.
    + rewrite IH; [by rewrite <- app_assoc|].
      rewrite fmap_app. simpl. by rewrite <- app_assoc.
    + apply NoDup_app in Hnd as (_ & Hdis & _).
      intros Hk. apply (Hdis k Hk). left.
Qed.

Lemma OrderedDict_NoDup items : NoDup (od_keys (OrderedDict items)).
Proof. apply od_update_NoDup. apply NoDup_nil_2. Qed.

Lemma OrderedDict_fresh items : NoDup items.*1 → OrderedDict items = items.
Proof. intros Hnd. unfold OrderedDict. by rewrite od_update_fresh. Qed.

Lemma od_keys_update_elem k d items :
  k ∈ od_keys (od_update d items) ↔ k ∈ od_keys d ∨ k ∈ items.*1.
Proof.
  unfold od_update. revert d.
  induction items as [|[k0 v0] items IH]; intros d; simpl.
  - rewrite elem_of_nil. tauto.
  - rewrite IH, od_keys_set, elem_of_cons.
    case_decide.
    + split; [tauto|]. intros [?|[->|?]]; auto.
    + rewrite elem_of_app, list_elem_of_singleton. tauto.
Qed.

(** After [d.update(items)], a key of [items] has the value of its
    last occurrence there, another key has the value it had. *)
Lemma od_get_update k d items :
  od_get k (od_update d items) =
  match od_get k (reverse items) with
  | Some v => Some v
  | None => od_get k d
  end.
Proof.
  unfold od_update. revert d.
  induction items as [|[k0 v0] items IH] using rev_ind; intros d; [done|].
  rewrite foldl_app, reverse_app. simpl.
  rewrite od_get_set. case_decide; [done|]. apply IH.
Qed.

Lemma od_get_reverse k d : NoDup (od_keys d) → od_get k (reverse d) = od_get k d.
Proof.
  unfold od_keys. induction d as [|[k0 v0] d IH]; [done|].
  rewrite fmap_cons, NoDup_cons. cbn [fst]. intros [Hni Hnd].
  rewrite reverse_cons. simpl.
  assert (Happ : ∀ d1 d2 : odict V,
  od_get k (d1 ++ d2) =
  match od_get k d1 with Some v => Some v | None => od_get k d2 end).
  { induction d1 as [|[k1 v1] d1 IH1]; intros d2; simpl; [done|].
    case_decide; [done | apply IH1]. }
  rewrite Happ, IH by done. simpl.
  case_decide; subst.
  - apply od_get_None in Hni. by rewrite Hni.
  - by destruct (od_get k d).
Qed.

Lemma od_get_update_NoDup k d items :
  NoDup (od_keys items) →
  od_get k (od_update d items) =
  match od_get k items with
  | Some v => Some v
  | None => od_get k d
  end.
Proof. intros Hnd. by rewrite od_get_update, od_get_reverse. Qed.

Lemma od_set_elem k v k' v' d :
  (k', v') ∈ od_set k v d → (k', v') = (k, v) ∨ (k', v') ∈ d.
Proof.
  induction d as [|[k0 v0] d IH]; cbn [od_set].
  - intros ->%list_elem_of_singleton. by left.
  - case_decide.
    + intros [->|Hin]%elem_of_cons; [by left | right; by right].
    + intros [->|Hin]%elem_of_cons; [right; left|].
      destruct (IH Hin) as [?|?]; [by left | right; by right].
Qed.

Lemma od_update_elem k v d items :
  (k, v) ∈ od_update d items → (k, v) ∈ d ∨ (k, v) ∈ items.
Proof.
  unfold od_update. revert d.
  induction items as [|[k0 v0] items IH]; intros d; cbn [foldl]; [by left|].
  intros [[Hset|Hd]%od_set_elem|Hitems]%IH.
  - right. rewrite Hset. left.
  - by left.
  - right. by right.
Qed.

End OdictFacts.

(** ** ORMField *)

Lemma foldl_insert_lookup (items : list (string * value))
    (m : gmap string value) (k : string) :
  NoDup items.*1 →
  foldl (fun m kv => <[kv.1 := kv.2]> m) m items !! k =
    match od_get k items with
    | Some v => Some v
    | None => m !! k
    end.
Proof.
  revert m. induction items as [|[k0 v0] items IH]; intros m; [done|].
  rewrite fmap_cons, NoDup_cons. cbn [fst]. intros [Hni Hnd].
  cbn [foldl od_get fst snd]. rewrite IH by done.
  case_decide; subst.
  - apply od_get_None in Hni. by rewrite Hni, lookup_insert_eq.
  - by rewrite lookup_insert_ne.
Qed.

Lemma od_get_filter_not_None (items : list (string * value)) (k : string) :
  NoDup items.*1 →
  od_get k (filter (fun kv => is_None kv.2 = false) items) =
    match od_get k items with
    | Some v => if is_None v then None else Some v
    | None => None
    end.
Proof.
  induction items as [|[k0 v0] items IH]; [done|].
  rewrite fmap_cons, NoDup_cons. cbn [fst]. intros [Hni Hnd].
  rewrite filter_cons. cbn [snd od_get].
  destruct (decide (k = k0)) as [->|Hne].
  - case_decide as HQ.
    + cbn [od_get]. by rewrite decide_True, HQ.
    + rewrite IH by done. apply od_get_None in Hni. rewrite Hni.
      by destruct (is_None v0).
  - case_decide; [cbn [od_get]; rewrite decide_False by done|];
      by apply IH.
Qed.

Lemma ORMField__init___kwargs
    (model_attr type required description deprecation_reason batching : value)
    (cc : option Z) (field_kwargs : gmap string value) (g : Z) (k : string) :
  kwargs (ORMField__init__ model_attr type required description
            deprecation_reason batching cc field_kwargs g).1 !! k =
    match od_get k [("model_attr", model_attr); ("type", type);
                    ("required", required); ("description", description);
                    ("deprecation_reason", deprecation_reason);
                    ("batching", batching)] with
    | Some v => if is_None v then field_kwargs !! k else Some v
    | None => field_kwargs !! k
    end.
Proof.
  unfold ORMField__init__. destruct (OrderedType__init__ cc g) as [c g'].
  cbn [fst kwargs].
  set (common := [("model_attr", model_attr); ("type", type);
                  ("required", required); ("description", description);
                  ("deprecation_reason", deprecation_reason);
                  ("batching", batching)]).
  assert (Hnd : NoDup common.*1).
  { apply (bool_decide_unpack _). by vm_compute. }
  rewrite foldl_insert_lookup.
  - rewrite od_get_filter_not_None by exact Hnd.
    destruct (od_get k common) as [v|]; [|done].
    by destruct (is_None v).
  - eapply sublist_NoDup; [exact Hnd|].
    apply fmap_sublist, sublist_filter.
Qed.

Lemma lookup_field_kwargs (kw : gmap string value) (k : string) :
  filter (fun kv : string * value => kv.1 ∉ common_names) kw !! k =
    if decide (k ∈ common_names) then None else kw !! k.
Proof.
  rewrite map_lookup_filter. destruct (kw !! k) as [v|]; simpl.
  - case_guard; case_decide; done.
  - by case_decide.
Qed.

(** The options that reach a conversion function are among those of
    the override, model_attr apart. *)
Lemma passed_options_subseteq obj_type registry batching
    connection_field_factory attrs n o field attr o' :
  @build_field recording obj_type registry batching connection_field_factory
    attrs n o = (Ok (field, attr), o') →
  passed_options field ⊆ delete "model_attr" (kwargs o).
Proof.
  unfold build_field.
  destruct (kwargs o !! "model_attr") as [[| | |target|]|]; try done.
  cbn [lookup_attr]. destruct (od_get target attrs) as [a|]; [|done].
  destruct a as [id|id|id|id|id]; cbn.
  - by intros [= <- <- <-].
  - case_decide; [done|]. intros [= <- <- <-]. apply map_empty_subseteq.
  - by intros [= <- <- <-].
  - intros [= <- <- <-]. apply delete_subseteq.
  - done.
Qed.

(** C9. Constructing an [ORMField] keeps a common option (model_attr,
    type, required, description, deprecation_reason, batching) exactly
    when its value is not [None]: a [None] one is absent from the
    override's [kwargs], any other value, [False] included, is stored
    as given; a passthrough keyword option is stored whatever its
    value. No conversion function therefore receives a common option
    with the value [None] from the field builder. *)
Theorem ORMField_drops_None_options (kw : gmap string value)
    (cc : option Z) (g : Z) (k : string) :
  let orm_field := (call_ORMField kw cc g).1 in
  kwargs orm_field !! k =
    (if decide (k ∈ common_names)
     then match kw !! k with
          | Some VNone => None
          | given => given
          end
     else kw !! k)
  ∧ (∀ obj_type registry batching connection_field_factory attrs n attr_name
       field attr orm_field',
       k ∈ common_names →
       @build_field recording obj_type registry batching
         connection_field_factory attrs n
         (set_kwarg "model_attr" attr_name orm_field)
         = (Ok (field, attr), orm_field') →
       passed_options field !! k ≠ Some VNone).
Proof.
  intros orm_field.
  assert (Hkw : kwargs orm_field !! k =
            if decide (k ∈ common_names)
            then match kw !! k with
                 | Some VNone => None
                 | given => given
                 end
            else kw !! k).
  { unfold orm_field, call_ORMField. rewrite ORMField__init___kwargs.
    rewrite !lookup_field_kwargs.
    destruct (decide (k ∈ common_names)) as [Hin|Hout].
    - unfold common_names in Hin.
      repeat (apply elem_of_cons in Hin as [->|Hin]);
        [| | | | | |by apply elem_of_nil in Hin];
        cbn; repeat (rewrite decide_False by done); rewrite decide_True by done;
        (destruct (kw !! _) as [[]|]; done).
    - assert (Hget : od_get k
                       [("model_attr", default VNone (kw !! "model_attr"));
                        ("type", default VNone (kw !! "type"));
                        ("required", default VNone (kw !! "required"));
                        ("description", default VNone (kw !! "description"));
                        ("deprecation_reason",
                          default VNone (kw !! "deprecation_reason"));
                        ("batching", default VNone (kw !! "batching"))] = None).
      { apply od_get_None. exact Hout. }
      by rewrite Hget. }
  split; [exact Hkw|].
  intros obj_type registry batching connection_field_factory attrs n attr_name
    field attr orm_field' Hin Hbuild Hpassed.
  apply passed_options_subseteq in Hbuild.
  eapply lookup_weaken in Hpassed; [|exact Hbuild].
  cbn in Hpassed. rewrite delete_insert_eq in Hpassed.
  apply lookup_delete_Some in Hpassed as [_ Hpassed].
  rewrite Hkw, decide_True in Hpassed by done.
  by destruct (kw !! k) as [[]|].
Qed.

Example ORMField_keeps_False :
  kwargs (call_ORMField
            {[ "required" := VBool false; "description" := VNone;
               "extra" := VNone ]} None 1).1 =
    {[ "required" := VBool false; "extra" := VNone ]}.
Proof. vm_compute. reflexivity. Qed.

Example ORMField_counters :
  (call_ORMField ∅ None 4).1 = mkORMField 4 ∅
  ∧ (call_ORMField ∅ None 4).2 = 5
  ∧ (call_ORMField ∅ (Some 9) 4).1 = mkORMField 9 ∅
  ∧ (call_ORMField ∅ (Some 9) 4).2 = 4.
Proof. split_and!; vm_compute; reflexivity. Qed.

(** ** The attribute classifier *)

(** C7. When the names that the provider reports are distinct, the keys
    of [all_model_attrs] are the plain column attributes, then the
    composites, then the hybrid attributes, then the relationships,
    each group in the order the provider reports it. *)
Theorem all_model_attrs_order (model : Model) :
  let mapper := sqlalchemy_inspect model in
  let hybrids :=
    filter (fun item => is_hybrid_property item.2 = true)
           (all_orm_descriptors mapper) in
  NoDup ((column_attrs mapper).*1 ++ (composites mapper).*1 ++
         hybrids.*1 ++ (relationships mapper).*1) →
  od_keys (all_model_attrs model) =
    (column_attrs mapper).*1 ++ (composites mapper).*1 ++
    hybrids.*1 ++ (relationships mapper).*1.
Proof.
  intros mapper hybrids Hnd. unfold all_model_attrs.
  fold mapper. fold hybrids.
  rewrite OrderedDict_fresh.
  - unfold od_keys. by rewrite !fmap_app.
  - by rewrite !fmap_app.
Qed.

Lemma all_model_attrs_order_witness :
  od_keys (all_model_attrs model_reporter) =
    ["id"; "first_name"; "composite_prop"; "hybrid_prop"; "articles"].
Proof.
  apply (all_model_attrs_order model_reporter).
  apply (bool_decide_unpack _). vm_compute. reflexivity.
Defined.

(** Whatever the names, only the first occurrence of a name keeps a
    place among the keys. *)
Lemma all_model_attrs_keys_NoDup (model : Model) :
  NoDup (od_keys (all_model_attrs model)).
Proof. apply OrderedDict_NoDup. Qed.

(** ** The connection field *)

Section ConnectionFieldFacts.
Context `{Utils} `{Relay}.

(** C5. The default query of the connection field takes no order-by
    clause when [sort] is [None], the clause of the one sort value
    when [sort] is a single value, and the clauses of the sort values
    one after the other, in the order of the list, when [sort] is a
    list. *)
Theorem get_query_applies_sort (model : Model) (context : nat) :
  let query := utils_get_query model context in
  get_query model context SortNone = query
  ∧ (∀ sort,
       order_by_clauses (get_query model context (SortOne sort)) =
         order_by_clauses query ++ [enum_value sort])
  ∧ (∀ sort,
       order_by_clauses (get_query model context (SortList sort)) =
         order_by_clauses query ++ (enum_value <$> sort))
  ∧ (∀ sort (i : nat),
       order_by_clauses (get_query model context (SortList sort))
         !! (List.length (order_by_clauses query) + i)%nat =
         enum_value <$> sort !! i).
Proof.
  intros query. split_and!; try done.
  intros sort i. cbn. subst query.
  rewrite lookup_app_r by lia.
  replace (_ + i - _)%nat with i by lia.
  by rewrite list_lookup_fmap.
Qed.

(** C6. [resolve_connection] hands the resolved value itself (the
    default query when the resolver returned nothing) to the slicing
    routine, with the count of the query or the size of the list as
    its length, and attaches that value and that length to the
    connection it returns. *)
Theorem resolve_connection_attaches (connection_type : ConnectionType)
  (model : Model) (context : nat) (args : connection_args)
  (resolved : option resolved_value) :
  let value :=
    match resolved with
    | Some value => value
    | None => AQuery (get_query model context (arg_sort args))
    end in
  let total :=
    match value with
    | AQuery query => count query
    | AList items => Z.of_nat (List.length items)
    end in
  (∀ page,
     connection_from_list_slice value args 0 total total connection_type
       = Ok page →
     resolve_connection connection_type model context args resolved =
       Ok {| connection_payload := page; iterable := value;
             length := total |})
  ∧ (∀ connection,
       resolve_connection connection_type model context args resolved =
         Ok connection →
       iterable connection = value ∧ length connection = total).
Proof.
  intros value total. unfold resolve_connection.
  fold value. fold total. split.
  - intros page ->. done.
  - intros connection.
    destruct (connection_from_list_slice _ _ _ _ _ _); [|done].
    by intros [= <-].
Qed.

End ConnectionFieldFacts.

Lemma resolve_connection_attaches_witness :
  let query :=
    {| query_entity := 2; query_context := 0;
       order_by_clauses := [desc "name"; asc "id"] |} in
  @resolve_connection utils_example relay_example reporter_connection
    model_reporter 0%nat args_sorted None =
    Ok {| connection_payload := (0, 3); iterable := AQuery query;
          length := 10 |}
  ∧ (∀ connection,
       @resolve_connection utils_example relay_example reporter_connection
         model_reporter 0%nat args_sorted (Some (AList [4; 5]%nat)) =
         Ok connection →
       iterable connection = AList [4; 5]%nat ∧ length connection = 2).
Proof.
  split.
  - apply (proj1 (@resolve_connection_attaches utils_example relay_example
                    reporter_connection model_reporter 0%nat args_sorted None)).
    reflexivity.
  - apply (proj2 (@resolve_connection_attaches utils_example relay_example
                    reporter_connection model_reporter 0%nat args_sorted
                    (Some (AList [4; 5]%nat)))).
Defined.

Section SortingConnectionFieldFacts.
Context `{Utils}.

(** C10. With [sort=None] the sorting connection field passes its
    keywords on without [sort]; without [sort] and with a connection
    type it adds the sort argument made for the model of the
    connection; and when no model can be reached from the type, or no
    sort argument can be made for it, it raises the error that tells
    the caller to set [sort] to [None]. *)
Theorem connection_field_sort_keyword (type : field_type)
  (kwargs : gmap string value) :
  (kwargs !! "sort" = Some VNone →
   SQLAlchemyConnectionField__init__ type kwargs = Ok (delete "sort" kwargs))
  ∧ (∀ name model argument,
       kwargs !! "sort" = None →
       type = ConnectionClass name (Some model) →
       sort_argument_for_model model = Ok argument →
       SQLAlchemyConnectionField__init__ type kwargs =
         Ok (<["sort" := argument]> kwargs))
  ∧ (∀ name node_model,
       kwargs !! "sort" = None →
       type = ConnectionClass name node_model →
       (∀ model, node_model = Some model →
                 is_Ok (sort_argument_for_model model) = false) →
       SQLAlchemyConnectionField__init__ type kwargs =
         Raise (sort_argument_error name)).
Proof.
  unfold SQLAlchemyConnectionField__init__. split_and!.
  - by intros ->.
  - by intros name model argument -> -> ->.
  - intros name [model|] -> -> Hraise; [|done].
    specialize (Hraise model eq_refl).
    by destruct (sort_argument_for_model model).
Qed.

End SortingConnectionFieldFacts.

Lemma connection_field_sort_keyword_witness :
  @SQLAlchemyConnectionField__init__ utils_example
    (ConnectionClass "ReporterConnection" (Some model_reporter))
    {["sort" := VNone; "description" := VStr "all"]} =
    Ok {["description" := VStr "all"]}
  ∧ @SQLAlchemyConnectionField__init__ utils_example
      (ConnectionClass "ReporterConnection" (Some model_reporter))
      {["description" := VStr "all"]} =
      Ok {["sort" := VObj 2; "description" := VStr "all"]}
  ∧ @SQLAlchemyConnectionField__init__ utils_example
      (ConnectionClass "PetConnection" None) ∅ =
      Raise (@sort_argument_error "PetConnection").
Proof.
  split_and!.
  - refine (eq_trans
              (proj1 (@connection_field_sort_keyword utils_example
                        (ConnectionClass "ReporterConnection" (Some model_reporter))
                        {["sort" := VNone; "description" := VStr "all"]}) _) _);
      reflexivity.
  - refine (eq_trans
              (proj1 (proj2 (@connection_field_sort_keyword utils_example
                        (ConnectionClass "ReporterConnection" (Some model_reporter))
                        {["description" := VStr "all"]}))
                 "ReporterConnection" model_reporter (VObj 2) _ _ _) _);
      reflexivity.
  - refine (proj2 (proj2 (@connection_field_sort_keyword utils_example
                            (ConnectionClass "PetConnection" None) ∅))
              "PetConnection" None _ _ _); [reflexivity | reflexivity |].
    intros model Hm. discriminate Hm.
Defined.

(** ** is_type_of *)

Section IsTypeOfFacts.
Context `{Utils}.

(** C8, amended. [is_type_of] returns true for an instance of the
    generated type; otherwise it raises for an object that is not a
    mapped instance; otherwise it returns whether the object is an
    instance of the bound model, which holds for the instances of
    the model and of every model that subclasses it. It returns
    false only for a mapped instance and raises only for an object
    that is not one. *)
Theorem is_type_of_cases (cls : ObjType) (model : Model) (root : pyobject) :
  (isinstance root (TypeClass (type_id cls)) = true →
   is_type_of cls model root = Ok true)
  ∧ (isinstance root (TypeClass (type_id cls)) = false →
     is_mapped_instance root = false →
     ∃ msg, is_type_of cls model root = Raise (Exception msg))
  ∧ (isinstance root (TypeClass (type_id cls)) = false →
     is_mapped_instance root = true →
     is_type_of cls model root =
       Ok (bool_decide (ModelClass (model_id model) ∈ ob_type_mro root))).
Proof.
  unfold is_type_of. split_and!.
  - by intros ->.
  - intros -> ->. eauto.
  - by intros -> ->.
Qed.

End IsTypeOfFacts.

Lemma is_type_of_cases_witness :
  @is_type_of utils_example type_plain model_abc
    {| ob_repr := "<ReporterType>"; ob_type_mro := [TypeClass 7; OtherClass 0] |}
    = Ok true
  ∧ (∃ msg, @is_type_of utils_example type_plain model_abc unmapped_instance
            = Raise (Exception msg))
  ∧ @is_type_of utils_example type_plain model_abc sub_instance = Ok true.
Proof.
  split_and!.
  - apply (proj1 (@is_type_of_cases utils_example type_plain model_abc _)).
    reflexivity.
  - apply (proj1 (proj2 (@is_type_of_cases utils_example type_plain model_abc
                           unmapped_instance))); reflexivity.
  - refine (eq_trans
              (proj2 (proj2 (@is_type_of_cases utils_example type_plain model_abc
                               sub_instance)) _ _) _); reflexivity.
Defined.

(** C8, as stated, fails: an instance of a model that subclasses the
    bound model is not an instance of exactly the bound model, and
    [is_type_of] returns true for it. *)
Lemma is_type_of_submodel_counterexample :
  isinstance sub_instance (TypeClass (type_id type_plain)) = false
  ∧ @is_mapped_instance utils_example sub_instance = true
  ∧ ¬ instance_of_exactly sub_instance model_abc
  ∧ @is_type_of utils_example type_plain model_abc sub_instance = Ok true.
Proof. split_and!; [reflexivity | reflexivity | discriminate | reflexivity]. Qed.

(** ** The field builder: the loops, one step at a time *)

Lemma deref_state (r : orm_ref) (s : state) : (deref r s).2 = s.
Proof.
  destruct r as [l|o]; [|done].
  unfold deref, load. by destruct (heap s !! l).
Qed.

Section BuildFieldsFacts.
Context `{Converters}.
Variables (obj_type : ObjType) (registry : nat)
  (batching connection_field_factory : value) (attrs : odict orm_attr).

Local Abbreviation body :=
  (build_field obj_type registry batching connection_field_factory attrs).
Local Abbreviation loop :=
  (build_fields obj_type registry batching connection_field_factory attrs).
Local Abbreviation next := (after_entry obj_type registry).

Lemma build_fields_cons_Ok orm_field_name r rest fields s result s' :
  loop ((orm_field_name, r) :: rest) fields s = (Ok result, s') →
  ∃ orm_field field attr orm_field',
    deref r s = (Ok orm_field, s)
    ∧ body orm_field_name orm_field = (Ok (field, attr), orm_field')
    ∧ loop rest (od_set orm_field_name field fields)
        (next orm_field_name r orm_field' attr s) = (Ok result, s').
Proof.
  cbn [build_fields]. unfold bind at 1.
  pose proof (deref_state r s) as Hst.
  destruct (deref r s) as [[orm_field|e] s1]; cbn in Hst; subst s1; [|done].
  destruct (body orm_field_name orm_field) as [[[field attr]|e] orm_field']
    eqn:Hbuild.
  - unfold bind at 1.
    assert (Hwb : ∃ s2, write_back r orm_field' s = (Ok tt, s2)).
    { destruct r; cbn; eauto. }
    destruct Hwb as [s2 Hwb]. rewrite Hwb. unfold bind at 1. cbn.
    intros Hrest. exists orm_field, field, attr, orm_field'.
    split_and!; [done..|].
    unfold after_entry. by rewrite Hwb.
  - unfold bind at 1. destruct (write_back r orm_field' s) as [[[]|e'] s2]; done.
Qed.

Lemma build_fields_keys_elem entries fields s result s' k :
  loop entries fields s = (Ok result, s') →
  k ∈ od_keys result ↔ k ∈ od_keys fields ∨ k ∈ entries.*1.
Proof.
  revert fields s. induction entries as [|[n r] rest IH]; intros fields s.
  - intros [= <- <-]. rewrite fmap_nil, elem_of_nil. tauto.
  - intros (o & field & attr & o' & _ & _ & Hrest)%build_fields_cons_Ok.
    rewrite (IH _ _ Hrest), od_keys_set, fmap_cons, elem_of_cons. cbn [fst].
    case_decide.
    + split; [tauto|]. intros [?|[->|?]]; auto.
    + rewrite elem_of_app, list_elem_of_singleton. tauto.
Qed.

Lemma build_fields_keys_NoDup entries fields s result s' :
  loop entries fields s = (Ok result, s') →
  NoDup (od_keys fields) → NoDup (od_keys result).
Proof.
  revert fields s. induction entries as [|[n r] rest IH]; intros fields s.
  - by intros [= <- <-].
  - intros (o & field & attr & o' & _ & _ & Hrest)%build_fields_cons_Ok Hnd.
    eapply IH; [exact Hrest|]. by apply od_set_NoDup.
Qed.

(** The keys of the result, in order: the names of the entries, when
    they are distinct and the loop starts from the empty mapping. *)
Lemma build_fields_keys entries s result s' :
  loop entries [] s = (Ok result, s') →
  NoDup entries.*1 →
  od_keys result = entries.*1.
Proof.
  assert (Hgen : ∀ entries fields s result s',
             loop entries fields s = (Ok result, s') →
             NoDup (od_keys fields ++ entries.*1) →
             od_keys result = od_keys fields ++ entries.*1).
  { clear. intros entries.
    induction entries as [|[n r] rest IH]; intros fields s result s'.
    - intros [= <- <-] _. by rewrite app_nil_r.
    - intros (o & field & attr & o' & _ & _ & Hrest)%build_fields_cons_Ok Hnd.
      rewrite fmap_cons in Hnd. cbn [fst] in Hnd.
      assert (Hfresh : n ∉ od_keys fields).
      { apply NoDup_app in Hnd as (_ & Hdis & _).
        intros Hn. apply (Hdis n Hn). left. }
      rewrite (IH _ _ _ _ Hrest); rewrite od_keys_set, decide_False by done.
      + by rewrite <- app_assoc.
      + by rewrite <- app_assoc. }
  intros Hloop Hnd. by rewrite (Hgen _ _ _ _ _ Hloop).
Qed.

Lemma build_fields_get_other entries fields s result s' k :
  loop entries fields s = (Ok result, s') →
  k ∉ entries.*1 →
  od_get k result = od_get k fields.
Proof.
  revert fields s. induction entries as [|[n r] rest IH]; intros fields s.
  - by intros [= <- <-].
  - intros (o & field & attr & o' & _ & _ & Hrest)%build_fields_cons_Ok.
    rewrite fmap_cons, not_elem_of_cons. cbn [fst]. intros [Hne Hk].
    rewrite (IH _ _ Hrest Hk), od_get_set. by rewrite decide_False.
Qed.

Lemma heap_after_entry n r o' attr s :
  heap (next n r o' attr s) =
    match r with
    | Declared l => <[l := o']> (heap s)
    | Created _ => heap s
    end.
Proof. by destruct r. Qed.

Lemma elem_of_declared_locs (entries : list (string * orm_ref)) l :
  l ∈ declared_locs entries ↔ ∃ n, (n, Declared l) ∈ entries.
Proof.
  unfold declared_locs. rewrite list_elem_of_omap. split.
  - intros ([n r] & Hin & Hr). cbn in Hr. destruct r; [|done].
    injection Hr as ->. by exists n.
  - intros [n Hin]. by exists (n, Declared l).
Qed.

(** What the loop leaves in the store, and in the mapping, for the
    declared overrides, when no object stands under two entries. *)
Lemma build_fields_Ok_spec entries fields s result s' :
  loop entries fields s = (Ok result, s') →
  NoDup entries.*1 →
  NoDup (declared_locs entries) →
  gen_counter s' = gen_counter s
  ∧ registry_types s' = registry_types s
  ∧ (∀ l, l ∉ declared_locs entries → heap s' !! l = heap s !! l)
  ∧ (∀ n l, (n, Declared l) ∈ entries →
       ∃ o field attr o',
         heap s !! l = Some o
         ∧ body n o = (Ok (field, attr), o')
         ∧ heap s' !! l = Some o'
         ∧ od_get n result = Some field).
Proof.
  revert fields s. induction entries as [|[n0 r0] rest IH]; intros fields s.
  - intros [= <- <-] _ _. split_and!; try done.
    intros n l Hin. by apply elem_of_nil in Hin.
  - intros (o0 & field0 & attr0 & o0' & Hderef & Hbody & Hrest)%build_fields_cons_Ok.
    rewrite fmap_cons, NoDup_cons. cbn [fst]. intros [Hn0 Hnames] Hlocs.
    assert (Hlocs' : NoDup (declared_locs rest)).
    { unfold declared_locs in *. cbn [omap list_omap] in Hlocs.
      destruct r0; cbn in Hlocs; [by apply NoDup_cons in Hlocs as [_ ?] | done]. }
    destruct (IH _ _ Hrest Hnames Hlocs') as (Hg & Ht & Hother & Hdecl).
    split_and!; [rewrite Hg; by destruct r0 | rewrite Ht; by destruct r0 | |].
    + intros l Hl. rewrite Hother.
      * rewrite heap_after_entry. destruct r0 as [l0|]; [|done].
        rewrite lookup_insert_ne; [done|]. intros ->. apply Hl.
        apply elem_of_declared_locs. exists n0. left.
      * intros [n Hin]%elem_of_declared_locs. apply Hl.
        apply elem_of_declared_locs. exists n. by right.
    + intros n l [[= -> <-]|Hin]%elem_of_cons.
      * exists o0, field0, attr0, o0'.
        assert (Hfresh : l ∉ declared_locs rest).
        { unfold declared_locs in Hlocs. cbn [omap list_omap] in Hlocs. cbn in Hlocs.
          by apply NoDup_cons in Hlocs as [? _]. }
        split_and!.
        -- cbn in Hderef. unfold load in Hderef.
           destruct (heap s !! l); by inversion Hderef.
        -- done.
        -- rewrite (Hother l Hfresh), heap_after_entry. apply lookup_insert_eq.
        -- rewrite (build_fields_get_other _ _ _ _ _ _ Hrest Hn0), od_get_set.
           by rewrite decide_True.
      * destruct (Hdecl n l Hin) as (o & field & attr & o' & Ho & Hb & Ho' & Hget).
        exists o, field, attr, o'. split_and!; try done.
        rewrite heap_after_entry in Ho. destruct r0 as [l0|]; [|done].
        rewrite lookup_insert_ne in Ho; [done|]. intros ->.
        unfold declared_locs in Hlocs. cbn [omap list_omap] in Hlocs. cbn in Hlocs.
        apply NoDup_cons in Hlocs as [Hl0 _]. apply Hl0.
        apply elem_of_declared_locs. by exists n.
Qed.

Lemma build_fields_cons_intro n r rest fields s o field attr o' :
  deref r s = (Ok o, s) →
  body n o = (Ok (field, attr), o') →
  loop ((n, r) :: rest) fields s =
    loop rest (od_set n field fields) (next n r o' attr s).
Proof.
  intros Hderef Hbody. cbn [build_fields]. unfold bind at 1.
  rewrite Hderef, Hbody. unfold bind at 1, after_entry.
  by destruct r as [l|o0].
Qed.

(** What the body of the loop does to the override object when it ends
    without an error: it takes model_attr out, and batching as well
    when the attribute is a relationship. *)
Lemma build_field_Ok_object n o field attr o' :
  body n o = (Ok (field, attr), o') →
  creation_counter o' = creation_counter o
  ∧ ∃ target,
      kwargs o !! "model_attr" = Some (VStr target)
      ∧ od_get target attrs = Some attr
      ∧ (kwargs o' = delete "model_attr" (kwargs o)
         ∨ ((∃ id, attr = RelationshipProperty id)
            ∧ kwargs o' = delete "batching" (delete "model_attr" (kwargs o)))).
Proof.
  unfold build_field.
  destruct (kwargs o !! "model_attr") as [[| | |target|]|] eqn:Hma; try done.
  cbn [lookup_attr].
  destruct (od_get target attrs) as [a|] eqn:Ha; [|done].
  set (resolver := match get_custom_resolver obj_type n with
                   | Some r => r
                   | None => get_attr_resolver obj_type target
                   end).
  destruct a as [id|id|id|id|id].
  - destruct (convert_sqlalchemy_column _ _ _ _); [|done].
    intros [= <- <- <-]. split; [done|]. exists target. split_and!; auto.
  - case_decide; [done|].
    destruct (convert_sqlalchemy_composite _ _ _); [|done].
    intros [= <- <- <-]. split; [done|]. exists target. split_and!; auto.
  - destruct (convert_sqlalchemy_hybrid_method _ _ _); [|done].
    intros [= <- <- <-]. split; [done|]. exists target. split_and!; auto.
  - destruct (convert_sqlalchemy_relationship _ _ _ _ _ _); [|done].
    intros [= <- <- <-]. split; [done|]. exists target. split_and!; eauto.
  - done.
Qed.

(** The creation counter of the override plays no part in the body. *)
Lemma build_field_kwargs_only n o1 o2 :
  kwargs o1 = kwargs o2 → (body n o1).1 = (body n o2).1.
Proof.
  intros Heq. unfold build_field. rewrite <- Heq.
  destruct (kwargs o1 !! "model_attr") as [[| | |target|]|]; try done.
  cbn [lookup_attr]. destruct (od_get target attrs) as [a|]; [|done].
  cbn [del_kwarg kwargs]. rewrite <- Heq.
  destruct a; try done.
  by case_decide.
Qed.

(** A second run of the loop over entries that are the same up to the
    counters of the fields that the builder made, from the same
    objects: the same result, the same objects afterwards, and the
    same records written to the registry. *)
Lemma build_fields_rerun e1 e2 fields s1 s2 result s1' :
  entries_equiv e1 e2 →
  heap s1 = heap s2 →
  loop e1 fields s1 = (Ok result, s1') →
  ∃ s2' (records : list (nat * nat * string * orm_attr)),
    loop e2 fields s2 = (Ok result, s2')
    ∧ heap s2' = heap s1'
    ∧ registry_orm_fields s1' =
        foldl (fun m kv => <[kv.1 := kv.2]> m) (registry_orm_fields s1) records
    ∧ registry_orm_fields s2' =
        foldl (fun m kv => <[kv.1 := kv.2]> m) (registry_orm_fields s2) records
    ∧ gen_counter s2' = gen_counter s2
    ∧ registry_types s2' = registry_types s2.
Proof.
  intros Hequiv. revert fields s1 s2.
  induction Hequiv as [|[n r1] [n2 r2] e1 e2 [Hn Hr] _ IH]; intros fields s1 s2 Hheap.
  - intros [= <- <-]. by exists s2, [].
  - cbn in Hn, Hr. subst n2.
    intros (o1 & field & attr & o1' & Hderef & Hbody & Hrest)%build_fields_cons_Ok.
    assert (Hrun2 : ∃ o2 o2', deref r2 s2 = (Ok o2, s2)
                              ∧ body n o2 = (Ok (field, attr), o2')
                              ∧ heap (next n r1 o1' attr s1) =
                                  heap (next n r2 o2' attr s2)).
    { destruct r1 as [l1|c1], r2 as [l2|c2]; try done; cbn in Hr.
      - subst l2. exists o1, o1'. split_and!; [|done|].
        + cbn in *. unfold load in *. rewrite <- Hheap.
          destruct (heap s1 !! l1); by inversion Hderef.
        + rewrite !heap_after_entry. by rewrite Hheap.
      - cbn in Hderef. injection Hderef as <-.
        exists c2, (body n c2).2. split_and!; [done| |by rewrite !heap_after_entry].
        pose proof (build_field_kwargs_only n c1 c2 Hr) as H1.
        rewrite Hbody in H1. cbn in H1.
        destruct (body n c2) as [res2 c2']. cbn in *. by subst res2. }
    destruct Hrun2 as (o2 & o2' & Hderef2 & Hbody2 & Hheap').
    destruct (IH _ _ _ Hheap' Hrest) as (s2' & records & Hloop & Hh & Hr1 & Hr2 & Hg & Ht).
    exists s2', ((registry, type_id obj_type, n, attr) :: records).
    split_and!.
    + by rewrite (build_fields_cons_intro _ _ _ _ _ _ _ _ _ Hderef2 Hbody2).
    + done.
    + rewrite Hr1. by destruct r1.
    + rewrite Hr2. by destruct r2.
    + rewrite Hg. by destruct r2.
    + rewrite Ht. by destruct r2.
Qed.

End BuildFieldsFacts.

(** The builder on a model with one attribute of each kind: the fields
    come in the order of the classifier, each from the converter of
    its kind. *)
Example construct_fields_reporter :
  (@construct_fields recording type_plain model_reporter 0%nat [] []
     (VBool false) VNone state_empty).1 =
    Ok [("id", ColumnField (ColumnProperty 1) 0 (attr_resolver "id") ∅);
        ("first_name",
          ColumnField (ColumnProperty 2) 0 (attr_resolver "first_name") ∅);
        ("composite_prop",
          CompositeField (CompositeProperty 3) 0 (attr_resolver "composite_prop"));
        ("hybrid_prop",
          HybridField (hybrid_property 4) (attr_resolver "hybrid_prop") ∅);
        ("articles",
          RelationshipField (RelationshipProperty 8) 7 VNone (VBool false)
            "articles" ∅)].
Proof. vm_compute. reflexivity. Qed.

(** An override of a composite that carries an option raises, naming
    the type and the field. *)
Example composite_override_raises :
  (@construct_fields recording type_composite model_reporter 0%nat [] []
     (VBool false) VNone state_reporter).1 =
    Raise (ValueError
             ("ORMField kwargs for composite fields must be empty. " ++
              "Field: ReporterType.composite_prop")).
Proof. vm_compute. reflexivity. Qed.

(** The batching of an override goes to the relationship converter in
    the place of the default of the type, and leaves the options. *)
Example relationship_override_batching :
  od_get "articles"
    (match (@construct_fields recording type_batching model_reporter 0%nat
              [] [] (VBool false) VNone state_reporter).1 with
     | Ok fields => fields
     | Raise _ => []
     end) =
    Some (RelationshipField (RelationshipProperty 8) 13 VNone (VBool true)
            "articles" ∅).
Proof. vm_compute. reflexivity. Qed.

(** ** Sorting by creation counter *)

Section SortedFacts.
Context {A : Type} (key : A → Z).

Lemma insert_sorted_Permutation x l : insert_sorted key x l ≡ₚ x :: l.
Proof.
  induction l as [|y l IH]; [done|]. cbn [insert_sorted].
  case_decide; [done|]. rewrite IH. apply Permutation_swap.
Qed.

Lemma sorted_Permutation l : sorted key l ≡ₚ l.
Proof.
  induction l as [|x l IH]; [done|]. cbn [sorted foldr].
  rewrite insert_sorted_Permutation. by f_equiv.
Qed.

Lemma elem_of_sorted x l : x ∈ sorted key l ↔ x ∈ l.
Proof. by rewrite sorted_Permutation. Qed.

(** The sort depends on the keys of the items only. *)
Lemma sorted_ext (key' : A → Z) l :
  (∀ x, x ∈ l → key x = key' x) → sorted key l = sorted key' l.
Proof.
  induction l as [|x l IH]; [done|]. intros Hkey. cbn [sorted foldr].
  fold (sorted key l). fold (sorted key' l).
  rewrite <- IH by (intros y Hy; apply Hkey; by right).
  assert (Hins : ∀ l', (∀ y, y ∈ l' → key y = key' y) →
  insert_sorted key x l' = insert_sorted key' x l').
  { induction l' as [|y l' IH']; [done|]. intros Hl'. cbn [insert_sorted].
    rewrite <- (Hkey x) by left. rewrite <- (Hl' y) by left.
    case_decide; [done|]. f_equal. apply IH'. intros z Hz. apply Hl'. by right. }
  apply Hins. intros y Hy. apply Hkey. right. by apply elem_of_sorted.
Qed.



End SortedFacts.




Section StableSort.
Context {V : Type} (key : string * V → Z).
Implicit Types (l : list (string * V)) (p : string * V).





End StableSort.

(** ** The loop that sets model_attr *)

Section SetModelAttrs.
Variables (attrs : odict orm_attr) (obj_type : ObjType).

Lemma set_model_attrs_cons_Ok n l rest s s' :
  set_model_attrs attrs obj_type ((n, l) :: rest) s = (Ok tt, s') →
  ∃ o a,
    heap s !! l = Some o
    ∧ lookup_attr (target_attr_name n o) attrs = Some a
    ∧ set_model_attrs attrs obj_type rest
        (with_heap (<[l := set_kwarg "model_attr" (target_attr_name n o) o]> (heap s)) s)
      = (Ok tt, s').
Proof.
  cbn [set_model_attrs]. unfold bind at 1, load.
  destruct (heap s !! l) as [o|]; [|done].
  destruct (lookup_attr (target_attr_name n o) attrs) as [a|] eqn:Ha; [|done].
  unfold bind at 1, store. intros Hrest. by exists o, a.
Qed.

Lemma set_model_attrs_cons_intro n l rest s o a :
  heap s !! l = Some o →
  lookup_attr (target_attr_name n o) attrs = Some a →
  set_model_attrs attrs obj_type ((n, l) :: rest) s =
    set_model_attrs attrs obj_type rest
      (with_heap (<[l := set_kwarg "model_attr" (target_attr_name n o) o]> (heap s)) s).
Proof.
  intros Ho Ha. cbn [set_model_attrs]. unfold bind at 1, load.
  rewrite Ho, Ha. by unfold bind at 1, store.
Qed.

(** What the loop leaves in the store when it ends without an error and
    every override object stands under one name only. *)
Lemma set_model_attrs_Ok items s s' :
  set_model_attrs attrs obj_type items s = (Ok tt, s') →
  NoDup items.*2 →
  gen_counter s' = gen_counter s
  ∧ registry_orm_fields s' = registry_orm_fields s
  ∧ registry_types s' = registry_types s
  ∧ (∀ l, l ∉ items.*2 → heap s' !! l = heap s !! l)
  ∧ (∀ n l, (n, l) ∈ items →
       ∃ o a, heap s !! l = Some o
              ∧ lookup_attr (target_attr_name n o) attrs = Some a
              ∧ heap s' !! l =
                  Some (set_kwarg "model_attr" (target_attr_name n o) o)).
Proof.
  revert s. induction items as [|[n l] rest IH]; intros s.
  - intros [= <-] _. split_and!; try done. intros n l Hin.
    by apply elem_of_nil in Hin.
  - intros (o & a & Ho & Ha & Hrest)%set_model_attrs_cons_Ok.
    rewrite fmap_cons, NoDup_cons. cbn [snd]. intros [Hl Hnd].
    destruct (IH _ Hrest Hnd) as (Hg & Hr & Ht & Hother & Hin).
    split_and!; try done.
    + intros l' Hl'. apply not_elem_of_cons in Hl' as [Hne Hl'].
      rewrite (Hother l' Hl'). cbn. by rewrite lookup_insert_ne.
    + intros n' l' [[= -> ->]|Hin']%elem_of_cons.
      * exists o, a. split_and!; [done..|].
        rewrite (Hother l Hl). cbn. by rewrite lookup_insert_eq.
      * destruct (Hin n' l' Hin') as (o' & a' & Ho' & Ha' & Hs').
        assert (l' ≠ l).
        { intros ->. apply Hl. apply list_elem_of_fmap. by exists (n', l). }
        cbn in Ho'. rewrite lookup_insert_ne in Ho' by done.
        by exists o', a'.
Qed.

(** When it does end without an error. *)
Lemma set_model_attrs_intro items s :
  NoDup items.*2 →
  (∀ n l, (n, l) ∈ items →
     ∃ o a, heap s !! l = Some o
            ∧ lookup_attr (target_attr_name n o) attrs = Some a) →
  ∃ s', set_model_attrs attrs obj_type items s = (Ok tt, s').
Proof.
  revert s. induction items as [|[n l] rest IH]; intros s.
  - intros _ _. by exists s.
  - rewrite fmap_cons, NoDup_cons. cbn [snd]. intros [Hl Hnd] Hall.
    destruct (Hall n l) as (o & a & Ho & Ha); [left|].
    rewrite (set_model_attrs_cons_intro _ _ _ _ _ _ Ho Ha).
    apply IH; [done|]. intros n' l' Hin'.
    destruct (Hall n' l') as (o' & a' & Ho' & Ha'); [by right|].
    exists o', a'. split; [|done]. cbn.
    rewrite lookup_insert_ne; [done|].
    intros ->. apply Hl. apply list_elem_of_fmap. by exists (n', l').
Qed.

End SetModelAttrs.

(** ** The loop that merges the automatic fields *)

Lemma new_ORMField_spec (n : string) (s : state) :
  new_ORMField (VStr n) s =
    (Ok (mkORMField (gen_counter s) (<["model_attr" := VStr n]> ∅)),
     mkState (heap s) (gen_counter s + 1) (registry_orm_fields s)
       (registry_types s)).
Proof. reflexivity. Qed.

Lemma entries_equiv_refl (e : list (string * orm_ref)) : entries_equiv e e.
Proof.
  induction e as [|[n r] e IH]; constructor; [|done].
  split; [done|]. by destruct r.
Qed.

Lemma entries_equiv_keys e1 e2 : entries_equiv e1 e2 → od_keys e1 = od_keys e2.
Proof.
  unfold od_keys. induction 1 as [|[n1 r1] [n2 r2] e1 e2 [Hn _] _ IH]; [done|].
  cbn in Hn. subst n2. rewrite !fmap_cons. cbn [fst]. by f_equal.
Qed.

Lemma entries_equiv_contains e1 e2 k :
  entries_equiv e1 e2 → od_contains k e1 = od_contains k e2.
Proof.
  intros Hkeys%entries_equiv_keys.
  destruct (od_contains k e1) eqn:H1; symmetry.
  - apply od_contains_true. rewrite <- Hkeys. by apply od_contains_true.
  - apply not_true_is_false. intros H2%od_contains_true.
    rewrite <- Hkeys in H2. apply od_contains_true in H2. congruence.
Qed.

Lemma entries_equiv_set e1 e2 k r1 r2 :
  entries_equiv e1 e2 → ref_equiv r1 r2 →
  entries_equiv (od_set k r1 e1) (od_set k r2 e2).
Proof.
  intros He Hr. induction He as [|[n1 x1] [n2 x2] e1 e2 [Hn Hx] He IH].
  - by repeat constructor.
  - cbn in Hn. subst n2. cbn [od_set].
    case_decide; constructor; done.
Qed.

Lemma merge_auto_fields_Ok auto od s :
  ∃ entries s',
    merge_auto_fields auto od s = (Ok entries, s')
    ∧ heap s' = heap s
    ∧ registry_orm_fields s' = registry_orm_fields s
    ∧ registry_types s' = registry_types s
    ∧ (∀ k, k ∈ od_keys entries ↔ k ∈ od_keys od ∨ k ∈ auto)
    ∧ (NoDup (od_keys od) → NoDup (od_keys entries))
    ∧ (∀ k r, od_get k od = Some r → od_get k entries = Some r)
    ∧ (∀ n l, (n, Declared l) ∈ entries → (n, Declared l) ∈ od).
Proof.
  revert od s. induction auto as [|n rest IH]; intros od s.
  - exists od, s. split_and!; try done. intros k. rewrite elem_of_nil. tauto.
  - cbn [merge_auto_fields].
    destruct (od_contains n od) eqn:Hc.
    + destruct (IH od s) as (e & s' & He & Hh & Hr & Ht & Hk & Hn & Hg & Hd).
      exists e, s'. split_and!; try done.
      intros k. rewrite Hk, elem_of_cons.
      apply od_contains_true in Hc. split; [tauto|].
      intros [?|[->|?]]; auto.
    + unfold bind at 1. rewrite new_ORMField_spec.
      set (o := mkORMField _ _). set (s1 := mkState _ _ _ _).
      destruct (IH (od_set n (Created o) od) s1)
        as (e & s' & He & Hh & Hr & Ht & Hk & Hn & Hg & Hd).
      assert (Hfresh : n ∉ od_keys od).
      { intros Hin%od_contains_true. congruence. }
      exists e, s'. split_and!; try done.
      * intros k. rewrite Hk, od_keys_set, decide_False by done.
        rewrite elem_of_app, list_elem_of_singleton, elem_of_cons. tauto.
      * intros Hnd. by apply Hn, od_set_NoDup.
      * intros k r Hkr. apply Hg. rewrite od_get_set.
        rewrite decide_False; [done|]. intros ->.
        apply od_get_None in Hfresh. congruence.
      * intros k l Hl. specialize (Hd k l Hl).
        rewrite od_set_fresh in Hd by done.
        rewrite elem_of_app in Hd. destruct Hd as [Hd|Hd]; [done|].
        apply list_elem_of_singleton in Hd. discriminate Hd.
Qed.

Lemma merge_auto_fields_equiv auto od1 od2 s1 s2 e1 e2 s1' s2' :
  entries_equiv od1 od2 →
  merge_auto_fields auto od1 s1 = (Ok e1, s1') →
  merge_auto_fields auto od2 s2 = (Ok e2, s2') →
  entries_equiv e1 e2.
Proof.
  revert od1 od2 s1 s2. induction auto as [|n rest IH]; intros od1 od2 s1 s2 Hod.
  - by intros [= <- <-] [= <- <-].
  - cbn [merge_auto_fields]. rewrite <- (entries_equiv_contains od1 od2 n Hod).
    destruct (od_contains n od1).
    + by apply IH.
    + unfold bind at 1 2. rewrite !new_ORMField_spec.
      apply IH. by apply entries_equiv_set.
Qed.

(** ** construct_fields, phase by phase *)

Lemma elem_of_auto_orm_field_names (attrs : odict orm_attr)
    (only_fields exclude_fields : list string) (k : string) :
  k ∈ auto_orm_field_names attrs only_fields exclude_fields ↔
    k ∈ od_keys attrs
    ∧ (only_fields = [] ∨ k ∈ only_fields)
    ∧ k ∉ exclude_fields.
Proof.
  unfold auto_orm_field_names. rewrite list_elem_of_filter.
  destruct (decide (only_fields = [])); destruct (decide (k ∈ only_fields));
    tauto.
Qed.

Lemma elem_of_custom_entries (items : list (string * nat)) (k : string) :
  k ∈ od_keys (OrderedDict (prod_map id Declared <$> items)) ↔ k ∈ items.*1.
Proof.
  unfold OrderedDict. rewrite od_keys_update_elem.
  rewrite <- list_fmap_compose.
  assert (Heq : (fst ∘ prod_map id Declared <$> items) = items.*1).
  { apply list_fmap_ext. by intros i [n l] _. }
  rewrite Heq. cbn. rewrite elem_of_nil. tauto.
Qed.

Section ConstructFieldsFacts.
Context `{Converters}.

Lemma construct_fields_Ok obj_type model registry only_fields exclude_fields
    batching connection_field_factory s fields s' :
  construct_fields obj_type model registry only_fields exclude_fields batching
    connection_field_factory s = (Ok fields, s') →
  ∃ sB entries sC,
    set_model_attrs (all_model_attrs model) obj_type
      (sorted (fun item => counter_of (heap s) item.2)
         (custom_orm_fields_items obj_type)) s = (Ok tt, sB)
    ∧ merge_auto_fields
        (auto_orm_field_names (all_model_attrs model) only_fields exclude_fields)
        (OrderedDict
           (prod_map id Declared <$>
              sorted (fun item => counter_of (heap s) item.2)
                (custom_orm_fields_items obj_type))) sB = (Ok entries, sC)
    ∧ build_fields obj_type registry batching connection_field_factory
        (all_model_attrs model) entries [] sC = (Ok fields, s').
Proof.
  unfold construct_fields. unfold bind at 1, get_heap.
  unfold bind at 1.
  destruct (set_model_attrs _ _ _ s) as [[[]|e] sB] eqn:HB; [|done].
  unfold bind at 1.
  destruct (merge_auto_fields _ _ sB) as [[entries|e] sC] eqn:HC; [|done].
  intros Hbuild. by exists sB, entries, sC.
Qed.

Lemma construct_fields_intro obj_type model registry only_fields exclude_fields
    batching connection_field_factory s sB entries sC result :
  set_model_attrs (all_model_attrs model) obj_type
    (sorted (fun item => counter_of (heap s) item.2)
       (custom_orm_fields_items obj_type)) s = (Ok tt, sB) →
  merge_auto_fields
    (auto_orm_field_names (all_model_attrs model) only_fields exclude_fields)
    (OrderedDict
       (prod_map id Declared <$>
          sorted (fun item => counter_of (heap s) item.2)
            (custom_orm_fields_items obj_type))) sB = (Ok entries, sC) →
  build_fields obj_type registry batching connection_field_factory
    (all_model_attrs model) entries [] sC = result →
  construct_fields obj_type model registry only_fields exclude_fields batching
    connection_field_factory s = result.
Proof.
  intros HB HC HD. unfold construct_fields. unfold bind at 1, get_heap.
  unfold bind at 1. rewrite HB. unfold bind at 1. by rewrite HC.
Qed.

(** The keys of the field mapping: the names of the overrides, and the
    filtered attribute names. *)
Lemma construct_fields_keys obj_type model registry only_fields exclude_fields
    batching connection_field_factory s fields s' :
  construct_fields obj_type model registry only_fields exclude_fields batching
    connection_field_factory s = (Ok fields, s') →
  NoDup (od_keys fields)
  ∧ ∀ k, k ∈ od_keys fields ↔
           k ∈ (custom_orm_fields_items obj_type).*1
           ∨ k ∈ auto_orm_field_names (all_model_attrs model) only_fields
                   exclude_fields.
Proof.
  intros (sB & entries & sC & HB & HC & HD)%construct_fields_Ok.
  destruct (merge_auto_fields_Ok
              (auto_orm_field_names (all_model_attrs model) only_fields
                 exclude_fields)
              (OrderedDict
                 (prod_map id Declared <$>
                    sorted (fun item => counter_of (heap s) item.2)
                      (custom_orm_fields_items obj_type))) sB)
    as (e & sC' & HC' & _ & _ & _ & Hkeys & Hnd & _).
  rewrite HC in HC'. injection HC' as <- <-.
  specialize (Hnd (OrderedDict_NoDup _)).
  pose proof (build_fields_keys _ _ _ _ _ _ _ _ _ HD Hnd) as Hk.
  fold (od_keys entries) in Hk. rewrite Hk.
  split; [done|]. intros k. rewrite Hkeys, elem_of_custom_entries.
  by rewrite (sorted_Permutation _ (custom_orm_fields_items obj_type)).
Qed.

(** C2, amended. On a model with the attributes a, b and c and with
    [only_fields = ("a", "b")], the keys of the field mapping are a, b
    and the exposed names of all the overrides declared on the type:
    [only_fields] selects among the automatic fields only, and an
    override keeps its field also when its attribute is not selected. *)
Theorem only_fields_keeps_overrides obj_type model registry batching
    connection_field_factory s fields s' :
  (∀ k, k ∈ od_keys (all_model_attrs model) ↔ k ∈ ["a"; "b"; "c"]) →
  construct_fields obj_type model registry ["a"; "b"] [] batching
    connection_field_factory s = (Ok fields, s') →
  NoDup (od_keys fields)
  ∧ ∀ k, k ∈ od_keys fields ↔
           k ∈ ["a"; "b"] ∨ k ∈ (custom_orm_fields_items obj_type).*1.
Proof.
  intros Hattrs [Hnd Hkeys]%construct_fields_keys. split; [done|].
  intros k. rewrite Hkeys, elem_of_auto_orm_field_names, Hattrs.
  rewrite !elem_of_cons, !elem_of_nil. split.
  - intros [?|(_ & [[=]|?] & _)]; tauto.
  - intros [[->|[->|[]]]|?]; tauto.
Qed.

End ConstructFieldsFacts.

Lemma only_fields_keeps_overrides_witness :
  NoDup ["c"; "a"; "b"]
  ∧ ∀ k, k ∈ ["c"; "a"; "b"] ↔ k ∈ ["a"; "b"] ∨ k ∈ ["c"].
Proof.
  apply (@only_fields_keeps_overrides recording type_override_c model_abc
           0%nat (VBool false) VNone state_override_c
           [("c", ColumnField (ColumnProperty 3) 0 (attr_resolver "c")
                    {[ "description" := VStr "kept" ]});
            ("a", ColumnField (ColumnProperty 1) 0 (attr_resolver "a") ∅);
            ("b", ColumnField (ColumnProperty 2) 0 (attr_resolver "b") ∅)]
           (@construct_fields recording type_override_c model_abc 0%nat
              ["a"; "b"] [] (VBool false) VNone state_override_c).2).
  - intros k. split; intros Hk; exact Hk.
  - vm_compute. reflexivity.
Defined.

(** C2, as stated, fails: with [only_fields = ("a", "b")] an override
    declared for the column c still gives the field c. *)
Lemma only_fields_override_counterexample :
  ∃ fields,
    (@construct_fields recording type_override_c model_abc 0%nat
       ["a"; "b"] [] (VBool false) VNone state_override_c).1 = Ok fields
    ∧ od_keys fields = ["c"; "a"; "b"].
Proof. eexists. split; vm_compute; reflexivity. Qed.

(** ** The type constructor *)

Section TypeConstructorFacts.
Context `{Converters}.

Lemma yank_fields_keys_NoDup (attrs : odict Field) :
  NoDup (od_keys attrs) → NoDup (od_keys (yank_fields_from_attrs attrs)).
Proof.
  intros Hnd. eapply sublist_NoDup; [exact Hnd|].
  unfold od_keys, yank_fields_from_attrs. clear Hnd.
  induction attrs as [|[n v] attrs IH]; [done|].
  cbn [omap list_omap]. cbn [fst snd].
  rewrite fmap_cons. cbn [fst].
  destruct (get_field_as v); cbn.
  - by apply sublist_skip.
  - by apply sublist_cons.
Qed.

Lemma merge_meta_fields_get (fields : option (odict Field))
    (sqla_fields : odict Field) (name : string) :
  NoDup (od_keys sqla_fields) →
  od_get name (merge_meta_fields fields sqla_fields) =
    match od_get name sqla_fields with
    | Some generated => Some generated
    | None => od_get name (default [] fields)
    end.
Proof.
  intros Hnd. destruct fields as [[|item items]|]; cbn [merge_meta_fields default].
  - by destruct (od_get name sqla_fields).
  - by apply od_get_update_NoDup.
  - by destruct (od_get name sqla_fields).
Qed.

(** C3, amended. When the type is declared with an options object that
    carries fields, the constructor updates those fields with the
    generated ones: under a name that the field builder generated, the
    options hold the generated field, and under any other name the
    field that was declared. *)
Theorem generated_field_wins cls model registry skip_registry only_fields
    exclude_fields connection connection_class use_connection interfaces id
    batching connection_field_factory _meta s options s' r constructed :
  __init_subclass_with_meta__ cls (Some model) registry skip_registry
    only_fields exclude_fields connection connection_class use_connection
    interfaces id batching connection_field_factory _meta s = (Ok options, s') →
  checked_registry registry = Some r →
  (construct_fields cls model r only_fields exclude_fields batching
     connection_field_factory s).1 = Ok constructed →
  ∀ name,
    od_get name (default [] (meta_fields options)) =
      match od_get name (yank_fields_from_attrs constructed) with
      | Some generated => Some generated
      | None =>
          od_get name (default [] (meta_fields (default new_options _meta)))
      end.
Proof.
  unfold __init_subclass_with_meta__. intros Hinit Hr Hc. revert Hinit.
  rewrite Hr. case_decide; [done|].
  unfold bind at 1.
  destruct (construct_fields _ _ _ _ _ _ _ s) as [[constructed'|e] s1] eqn:Hc';
    [|done].
  cbn in Hc. injection Hc as ->.
  intros Hrest.
  assert (Hnd : NoDup (od_keys (yank_fields_from_attrs constructed))).
  { apply yank_fields_keys_NoDup.
    by apply construct_fields_keys in Hc' as [Hnd _]. }
  assert (Hfields : meta_fields options =
            Some (merge_meta_fields (meta_fields (default new_options _meta))
                    (yank_fields_from_attrs constructed))).
  { unfold bind at 1 in Hrest.
    match type of Hrest with
    | context [match ?c with Some _ => _ | None => ret () end s1] =>
        destruct (match c with Some _ => _ | None => ret () end s1)
          as [[[]|e] s2]; [|done]
    end.
    unfold bind at 1 in Hrest.
    destruct ((if skip_registry then ret () else register r model cls) s2)
      as [[[]|e] s3]; [|done].
    by injection Hrest as <- <-. }
  intros name. rewrite Hfields. cbn [default].
  by apply merge_meta_fields_get.
Qed.

End TypeConstructorFacts.

Lemma generated_field_wins_witness :
  od_get "a" (default [] (meta_fields options_abc)) = Some (column_field 1 "a")
  ∧ od_get "extra" (default [] (meta_fields options_abc)) = Some declared_a.
Proof.
  assert (Hwins :
    ∀ name,
      od_get name (default [] (meta_fields options_abc)) =
        match od_get name (@yank_fields_from_attrs recording generated_abc) with
        | Some generated => Some generated
        | None =>
            od_get name
              (default []
                 (meta_fields (default new_options (Some meta_declared))))
        end).
  { apply (@generated_field_wins recording type_plain model_abc NoRegistry
             false [] [] None None None [] None (VBool false) VNone
             (Some meta_declared) state_empty options_abc
             (@__init_subclass_with_meta__ recording type_plain
                (Some model_abc) NoRegistry false [] [] None None None []
                None (VBool false) VNone (Some meta_declared) state_empty).2
             0%nat generated_abc).
    - vm_compute. reflexivity.
    - reflexivity.
    - vm_compute. reflexivity. }
  split; [exact (Hwins "a") | exact (Hwins "extra")].
Defined.

(** C3, as stated, fails: the options object comes with a declared
    field a, the builder generates a field a, and after the
    construction the options hold the generated one. *)
Lemma declared_field_loses_counterexample :
  (@__init_subclass_with_meta__ recording type_plain (Some model_abc)
     NoRegistry false [] [] None None None [] None (VBool false) VNone
     (Some meta_declared) state_empty).1 = Ok options_abc
  ∧ od_get "a" (default [] (meta_fields meta_declared)) = Some declared_a
  ∧ od_get "a" (default [] (meta_fields options_abc)) =
      Some (column_field 1 "a")
  ∧ column_field 1 "a" ≠ declared_a.
Proof.
  split_and!; [vm_compute; reflexivity | reflexivity | reflexivity |].
  discriminate.
Qed.

(** ** The entries that stand for the declared overrides *)


Lemma elem_of_custom_entry (items : list (string * nat)) n l :
  (n, Declared l) ∈ OrderedDict (prod_map id Declared <$> items) →
  (n, l) ∈ items.
Proof.
  intros [Hin|Hin]%od_update_elem; [by apply elem_of_nil in Hin|].
  apply list_elem_of_fmap in Hin as ([n' l'] & [= -> ->] & Hin). done.
Qed.

Lemma NoDup_snd_name (items : list (string * nat)) n1 n2 l :
  NoDup items.*2 → (n1, l) ∈ items → (n2, l) ∈ items → n1 = n2.
Proof.
  induction items as [|[n0 l0] items IH]; [by intros _ ?%elem_of_nil|].
  rewrite fmap_cons, NoDup_cons. cbn [snd]. intros [Hl0 Hnd].
  intros [[= -> ->]|H1]%elem_of_cons [[= ->]|H2]%elem_of_cons; try done.
  - exfalso. apply Hl0. apply list_elem_of_fmap. by exists (n2, l0).
  - subst. exfalso. apply Hl0. apply list_elem_of_fmap. by exists (n1, l0).
  - by apply IH.
Qed.

Lemma declared_locs_NoDup (items : list (string * nat))
    (entries : list (string * orm_ref)) :
  NoDup items.*2 →
  NoDup entries.*1 →
  (∀ n l, (n, Declared l) ∈ entries → (n, l) ∈ items) →
  NoDup (declared_locs entries).
Proof.
  intros Hitems. induction entries as [|[n0 r0] rest IH]; [constructor|].
  rewrite fmap_cons, NoDup_cons. cbn [fst]. intros [Hn0 Hnames] Hfrom.
  assert (IH' : NoDup (declared_locs rest)).
  { apply IH; [done|]. intros n l Hin. apply Hfrom. by right. }
  unfold declared_locs. cbn [omap list_omap]. cbn.
  destruct r0 as [l0|]; [|done].
  apply NoDup_cons. split; [|done].
  intros [n Hin]%elem_of_declared_locs.
  assert (n = n0).
  { eapply (NoDup_snd_name items n n0 l0 Hitems).
    - apply Hfrom. by right.
    - apply Hfrom. left. }
  subst n. apply Hn0. apply list_elem_of_fmap. by exists (n0, Declared l0).
Qed.


(** ** Overrides along an inheritance chain *)

Section OverridePrecedence.
Context `{Converters}.

(** The phases of a run that ends without an error, when every override
    object stands under one name of one class. *)
Lemma construct_fields_phases obj_type model registry only_fields
    exclude_fields batching connection_field_factory s fields s' :
  construct_fields obj_type model registry only_fields exclude_fields batching
    connection_field_factory s = (Ok fields, s') →
  NoDup (custom_orm_fields_items obj_type).*2 →
  ∃ sB entries sC,
    set_model_attrs (all_model_attrs model) obj_type
      (sorted (fun item => counter_of (heap s) item.2)
         (custom_orm_fields_items obj_type)) s = (Ok tt, sB)
    ∧ merge_auto_fields
        (auto_orm_field_names (all_model_attrs model) only_fields exclude_fields)
        (OrderedDict
           (prod_map id Declared <$>
              sorted (fun item => counter_of (heap s) item.2)
                (custom_orm_fields_items obj_type))) sB = (Ok entries, sC)
    ∧ build_fields obj_type registry batching connection_field_factory
        (all_model_attrs model) entries [] sC = (Ok fields, s')
    ∧ heap sC = heap sB
    ∧ registry_orm_fields sC = registry_orm_fields s
    ∧ registry_types sC = registry_types s
    ∧ NoDup entries.*1
    ∧ NoDup (declared_locs entries)
    ∧ (∀ n l, (n, Declared l) ∈ entries →
              (n, l) ∈ custom_orm_fields_items obj_type)
    ∧ (∀ k r, od_get k (OrderedDict
                          (prod_map id Declared <$>
                             sorted (fun item => counter_of (heap s) item.2)
                               (custom_orm_fields_items obj_type))) = Some r →
              od_get k entries = Some r).
Proof.
  intros (sB & entries & sC & HB & HC & HD)%construct_fields_Ok Hnd.
  exists sB, entries, sC.
  destruct (merge_auto_fields_Ok
              (auto_orm_field_names (all_model_attrs model) only_fields
                 exclude_fields)
              (OrderedDict
                 (prod_map id Declared <$>
                    sorted (fun item => counter_of (heap s) item.2)
                      (custom_orm_fields_items obj_type))) sB)
    as (e & sC' & HC' & Hheap & Hreg & Htypes & _ & Hnames & Hget & Hdecl).
  rewrite HC in HC'. injection HC' as <- <-.
  specialize (Hnames (OrderedDict_NoDup _)).
  assert (Hsorted : NoDup
            (sorted (fun item => counter_of (heap s) item.2)
               (custom_orm_fields_items obj_type)).*2).
  { by rewrite (sorted_Permutation _ (custom_orm_fields_items obj_type)). }
  destruct (set_model_attrs_Ok _ _ _ _ _ HB Hsorted) as (_ & HregB & HtypesB & _).
  assert (Hfrom : ∀ n l, (n, Declared l) ∈ entries →
                         (n, l) ∈ custom_orm_fields_items obj_type).
  { intros n l Hin. apply Hdecl, elem_of_custom_entry in Hin.
    by apply elem_of_sorted in Hin. }
  split_and!; try done; try congruence.
  by apply (declared_locs_NoDup (custom_orm_fields_items obj_type)).
Qed.


End OverridePrecedence.



(** ** Building the fields twice *)

Section RegistryRecords.
Context `{Countable K} {V : Type}.
Implicit Types (m : gmap K V) (records : list (K * V)).

Lemma records_lookup_other m records k :
  k ∉ records.*1 →
  foldl (fun m kv => <[kv.1 := kv.2]> m) m records !! k = m !! k.
Proof.
  revert m. induction records as [|[k0 v0] records IH]; intros m; [done|].
  rewrite fmap_cons, not_elem_of_cons. cbn [fst foldl]. intros [Hne Hk].
  rewrite IH by done. cbn. by rewrite lookup_insert_ne.
Qed.

Lemma records_agree m m' records :
  (∀ k, k ∉ records.*1 → m !! k = m' !! k) →
  foldl (fun m kv => <[kv.1 := kv.2]> m) m records =
    foldl (fun m kv => <[kv.1 := kv.2]> m) m' records.
Proof.
  revert m m'. induction records as [|[k0 v0] records IH]; intros m m' Hagree.
  - apply map_eq. intros k. apply Hagree, not_elem_of_nil.
  - cbn [foldl]. apply IH. intros k Hk. cbn.
    destruct (decide (k0 = k)) as [->|Hne].
    + by rewrite !lookup_insert_eq.
    + rewrite !lookup_insert_ne by done. apply Hagree.
      rewrite fmap_cons, not_elem_of_cons. cbn. split; [congruence | done].
Qed.

(** Writing the same records a second time changes nothing. *)
Lemma records_twice m records :
  foldl (fun m kv => <[kv.1 := kv.2]> m)
    (foldl (fun m kv => <[kv.1 := kv.2]> m) m records) records =
  foldl (fun m kv => <[kv.1 := kv.2]> m) m records.
Proof.
  apply records_agree. intros k Hk. by apply records_lookup_other.
Qed.

End RegistryRecords.

Section Idempotence.
Context `{Converters}.
Variables (obj_type : ObjType) (model : Model) (registry : nat)
  (only_fields exclude_fields : list string)
  (batching connection_field_factory : value).

Local Abbreviation attrs := (all_model_attrs model).
Local Abbreviation items := (custom_orm_fields_items obj_type).
Local Abbreviation run :=
  (construct_fields obj_type model registry only_fields exclude_fields
     batching connection_field_factory).

(** C1, amended. A call of [construct_fields] takes model_attr out of
    the override objects it used (and batching out of those that
    stand for a relationship), so a second call with the same objects
    falls back on the exposed names and on the batching default. When
    every override object stands under one name of one class, names
    no other attribute than the one of its own name and, for a
    relationship, carries no batching, the second call returns the
    same mapping as the first and leaves the override objects and the
    registry as the first call left them. *)
Theorem construct_fields_twice s fields s1 :
  NoDup items.*2 →
  (∀ n l o, (n, l) ∈ items → heap s !! l = Some o →
            kwargs o !! "model_attr" = None
            ∨ kwargs o !! "model_attr" = Some (VStr n)) →
  (∀ n l o id, (n, l) ∈ items → heap s !! l = Some o →
               od_get n attrs = Some (RelationshipProperty id) →
               kwargs o !! "batching" = None) →
  run s = (Ok fields, s1) →
  ∃ s2,
    run s1 = (Ok fields, s2)
    ∧ heap s2 = heap s1
    ∧ registry_orm_fields s2 = registry_orm_fields s1
    ∧ registry_types s2 = registry_types s1.
Proof.
  intros Hnd Hma Hbatch Hrun.
  destruct (construct_fields_phases _ _ _ _ _ _ _ _ _ _ Hrun Hnd)
    as (sB & entries & sC & HB & HC & HD & HheapC & HregC & HtypesC & Hnames
        & Hlocs & Hfrom & _).
  set (sitems := sorted (fun item => counter_of (heap s) item.2) items) in *.
  assert (Hsnd : NoDup sitems.*2).
  { unfold sitems. by rewrite (sorted_Permutation _ items). }
  destruct (set_model_attrs_Ok _ _ _ _ _ HB Hsnd)
    as (HgB & HregB & HtypesB & HotherB & HinB).
  destruct (build_fields_Ok_spec _ _ _ _ _ _ _ _ _ _ HD Hnames Hlocs)
    as (HgD & HtypesD & HotherD & HdeclD).
  (* each override object, before the first call and after it *)
  assert (K : ∀ n l, (n, l) ∈ sitems →
            ∃ o0 o1 a,
              heap s !! l = Some o0
              ∧ heap s1 !! l = Some o1
              ∧ creation_counter o1 = creation_counter o0
              ∧ target_attr_name n o1 = VStr n
              ∧ lookup_attr (VStr n) attrs = Some a
              ∧ heap sB !! l = Some (set_kwarg "model_attr" (VStr n) o1)).
  { intros n l Hin. destruct (HinB n l Hin) as (o0 & a & Ho0 & Ha & HoB).
    assert (Hitem : (n, l) ∈ items) by by apply elem_of_sorted in Hin.
    assert (Ht : target_attr_name n o0 = VStr n).
    { unfold target_attr_name.
      by destruct (Hma n l o0 Hitem Ho0) as [-> | ->]. }
    rewrite Ht in Ha, HoB.
    destruct (decide (l ∈ declared_locs entries)) as [Hd|Hd].
    - apply elem_of_declared_locs in Hd as [n' Hn'].
      assert (n' = n) as ->.
      { eapply (NoDup_snd_name items); [exact Hnd | by apply Hfrom | done]. }
      destruct (HdeclD n l Hn') as (o & field & attr & o' & Ho & Hbody & Ho' & _).
      rewrite HheapC, HoB in Ho. injection Ho as <-.
      destruct (build_field_Ok_object _ _ _ _ _ _ _ _ _ _ Hbody)
        as (Hc & target & Hmaeq & Hattr & Hkw).
      cbn in Hmaeq. rewrite lookup_insert_eq in Hmaeq. injection Hmaeq as <-.
      assert (Hkw' : kwargs o' =
                delete "model_attr" (<["model_attr" := VStr n]> (kwargs o0))).
      { destruct Hkw as [Hkw | [[id ->] Hkw]]; [done|].
        cbn in Hkw. rewrite Hkw. apply delete_id.
        rewrite lookup_delete_ne, lookup_insert_ne by done.
        by eapply Hbatch. }
      exists o0, o', a. split_and!; try done.
      + unfold target_attr_name. by rewrite Hkw', lookup_delete_eq.
      + f_equal. unfold set_kwarg. rewrite Hc, Hkw'. cbn.
        by rewrite insert_delete_eq, insert_insert_eq.
    - exists o0, (set_kwarg "model_attr" (VStr n) o0), a.
      split_and!; try done.
      + by rewrite HotherD, HheapC.
      + unfold target_attr_name. cbn. by rewrite lookup_insert_eq.
      + rewrite HoB. f_equal. unfold set_kwarg. cbn.
        by rewrite insert_insert_eq. }
  (* the second call sorts the overrides as the first did *)
  assert (Hsorted1 :
            sorted (fun item => counter_of (heap s1) item.2) items = sitems).
  { apply sorted_ext. intros [n l] Hin. cbn.
    destruct (K n l) as (o0 & o1 & a & Ho0 & Ho1 & Hc & _).
    { by apply elem_of_sorted. }
    unfold counter_of. by rewrite Ho0, Ho1. }
  (* and sets model_attr back to what the first call had set *)
  destruct (set_model_attrs_intro attrs obj_type sitems s1 Hsnd) as [sB' HB'].
  { intros n l Hin. destruct (K n l Hin) as (o0 & o1 & a & _ & Ho1 & _ & Ht1 & Ha & _).
    exists o1, a. by rewrite Ht1. }
  destruct (set_model_attrs_Ok _ _ _ _ _ HB' Hsnd)
    as (HgB' & HregB' & HtypesB' & HotherB' & HinB').
  assert (HheapB' : heap sB' = heap sB).
  { apply map_eq. intros l. destruct (decide (l ∈ sitems.*2)) as [Hl|Hl].
    - apply list_elem_of_fmap in Hl as ([n l'] & -> & Hin). cbn.
      destruct (HinB' n l' Hin) as (o1' & a' & Ho1' & _ & Hs').
      destruct (K n l' Hin) as (o0 & o1 & a & _ & Ho1 & _ & Ht1 & _ & HsB).
      rewrite Ho1 in Ho1'. injection Ho1' as <-. by rewrite Hs', Ht1, HsB.
    - rewrite (HotherB' l Hl), HotherD; [by rewrite HheapC|].
      intros [n Hn]%elem_of_declared_locs. apply Hl.
      apply list_elem_of_fmap. exists (n, l). split; [done|].
      apply elem_of_sorted. by apply Hfrom. }
  destruct (merge_auto_fields_Ok
              (auto_orm_field_names attrs only_fields exclude_fields)
              (OrderedDict (prod_map id Declared <$> sitems)) sB')
    as (entries' & sC' & HC' & HheapC' & HregC' & HtypesC' & _).
  pose proof (merge_auto_fields_equiv _ _ _ _ _ _ _ _ _
                (entries_equiv_refl _) HC HC') as Hequiv.
  destruct (build_fields_rerun obj_type registry batching
              connection_field_factory attrs entries entries' [] sC sC'
              fields s1 Hequiv)
    as (s2 & records & HD' & Hheap2 & Hreg1 & Hreg2 & Hg2 & Htypes2);
    [congruence | done |].
  exists s2. split_and!.
  - eapply construct_fields_intro; [| |exact HD'].
    + rewrite Hsorted1. exact HB'.
    + rewrite Hsorted1. exact HC'.
  - done.
  - rewrite Hreg2, HregC', HregB', Hreg1. apply records_twice.
  - congruence.
Qed.

End Idempotence.

Lemma construct_fields_twice_witness :
  let run := @construct_fields recording type_override_c model_abc 0%nat
               [] [] (VBool false) VNone in
  ∃ s2,
    run (run state_override_c).2 = (Ok fields_override_c, s2)
    ∧ heap s2 = heap (run state_override_c).2
    ∧ registry_orm_fields s2 = registry_orm_fields (run state_override_c).2
    ∧ registry_types s2 = registry_types (run state_override_c).2.
Proof.
  intros run.
  apply (@construct_fields_twice recording type_override_c model_abc 0%nat
           [] [] (VBool false) VNone state_override_c).
  - apply (bool_decide_unpack _). vm_compute. reflexivity.
  - intros n l o Hin Ho.
    change (custom_orm_fields_items type_override_c) with [("c", 0%nat)] in Hin.
    apply list_elem_of_singleton in Hin. injection Hin as -> ->.
    vm_compute in Ho. injection Ho as <-. left. reflexivity.
  - intros n l o id Hin Ho Hrel.
    change (custom_orm_fields_items type_override_c) with [("c", 0%nat)] in Hin.
    apply list_elem_of_singleton in Hin. injection Hin as -> ->.
    vm_compute in Hrel. discriminate Hrel.
  - vm_compute. reflexivity.
Defined.

(** C1, as stated, fails. The first call takes model_attr out of the
    override object; with the same object, the second call exposes the
    column of the override's own name b instead of the column a, and
    where the own name y is not an attribute it raises. *)
Lemma construct_fields_twice_counterexample :
  let run := @construct_fields recording type_renamed model_abc 0%nat
               [] [] (VBool false) VNone in
  let run_y := @construct_fields recording type_renamed_y model_abc 0%nat
                 [] [] (VBool false) VNone in
  (run state_renamed).1 =
    Ok [("b", column_field 1 "a"); ("a", column_field 1 "a");
        ("c", column_field 3 "c")]
  ∧ (run (run state_renamed).2).1 =
      Ok [("b", column_field 2 "b"); ("a", column_field 1 "a");
          ("c", column_field 3 "c")]
  ∧ is_Ok (run_y state_renamed).1 = true
  ∧ (run_y (run_y state_renamed).2).1 =
      Raise (ValueError ("Cannot map ORMField to a model attribute." ++
                         newline ++ "Field: 'RenamedType.y'")).
Proof. split_and!; vm_compute; reflexivity. Qed.


(** * Further properties *)

(** ** The order of the fields *)

Lemma od_keys_update_fmap {V W} (g : V → W) (d items : odict V) :
  od_keys (od_update (prod_map id g <$> d) (prod_map id g <$> items)) =
    od_keys (od_update d items).
Proof.
  unfold od_update. revert d.
  induction items as [|[k v] items IH]; intros d.
  - unfold od_keys. cbn. rewrite <- list_fmap_compose.
    apply list_fmap_ext. by intros i [k v] _.
  - rewrite fmap_cons. cbn [foldl fst snd prod_map id].
    assert (Hset : od_set k (g v) (prod_map id g <$> d) =
                   prod_map id g <$> od_set k v d).
    { clear. induction d as [|[k0 v0] d IH]; [done|].
      rewrite fmap_cons. cbn. case_decide; [done|].
      rewrite fmap_cons. cbn. by rewrite IH. }
    cbn. rewrite Hset. apply IH.
Qed.

Lemma od_keys_OrderedDict_fmap {V W} (g : V → W) (items : list (string * V)) :
  od_keys (OrderedDict (prod_map id g <$> items)) = od_keys (OrderedDict items).
Proof. unfold OrderedDict. apply (od_keys_update_fmap g []). Qed.

Lemma filter_iff_elem {A} (P Q : A → Prop) `{∀ x, Decision (P x)}
    `{∀ x, Decision (Q x)} (l : list A) :
  (∀ x, x ∈ l → P x ↔ Q x) → filter P l = filter Q l.
Proof.
  induction l as [|x l IH]; [done|]. intros Hiff. rewrite !filter_cons.
  rewrite IH by (intros y Hy; apply Hiff; by right).
  destruct (decide (P x)) as [HP|HP], (decide (Q x)) as [HQ|HQ]; try done;
    exfalso; apply (Hiff x) in HP || apply (Hiff x) in HQ; try done; left.
Qed.

Lemma merge_auto_fields_keys auto od s entries s' :
  merge_auto_fields auto od s = (Ok entries, s') →
  NoDup auto →
  od_keys entries = od_keys od ++ filter (fun n => n ∉ od_keys od) auto.
Proof.
  revert od s. induction auto as [|n rest IH]; intros od s.
  - intros [= <- <-] _. by rewrite filter_nil, app_nil_r.
  - cbn [merge_auto_fields]. rewrite NoDup_cons. intros Hrun [Hn Hnd].
    rewrite filter_cons.
    destruct (od_contains n od) eqn:Hc.
    + apply od_contains_true in Hc. rewrite decide_False by tauto.
      by apply (IH od s).
    + assert (Hfresh : n ∉ od_keys od).
      { intros Hin%od_contains_true. congruence. }
      rewrite decide_True by done.
      unfold bind at 1 in Hrun. rewrite new_ORMField_spec in Hrun.
      rewrite (IH _ _ Hrun Hnd), od_keys_set, decide_False by done.
      rewrite <- app_assoc. cbn. do 2 f_equal.
      apply filter_iff_elem. intros k Hk.
      rewrite elem_of_app, list_elem_of_singleton.
      split; [tauto|]. intros Hni [?| ->]; done.
Qed.

Lemma auto_orm_field_names_NoDup attrs only_fields exclude_fields :
  NoDup (od_keys attrs) →
  NoDup (auto_orm_field_names attrs only_fields exclude_fields).
Proof. intros Hnd. by apply NoDup_filter. Qed.

Section FieldOrder.
Context `{Converters}.

(** X1. The keys of the field mapping, in order: the exposed names of the
    overrides, by creation counter and each name at its first place,
    and then the filtered attribute names that no override stands
    under, in the order of the classifier. *)
Theorem construct_fields_key_order obj_type model registry only_fields
    exclude_fields batching connection_field_factory s fields s' :
  construct_fields obj_type model registry only_fields exclude_fields batching
    connection_field_factory s = (Ok fields, s') →
  od_keys fields =
    od_keys (OrderedDict
               (sorted (fun item => counter_of (heap s) item.2)
                  (custom_orm_fields_items obj_type)))
    ++ filter (fun n => n ∉ (custom_orm_fields_items obj_type).*1)
         (auto_orm_field_names (all_model_attrs model) only_fields
            exclude_fields).
Proof.
  intros (sB & entries & sC & HB & HC & HD)%construct_fields_Ok.
  assert (Hauto : NoDup (auto_orm_field_names (all_model_attrs model)
                           only_fields exclude_fields)).
  { apply auto_orm_field_names_NoDup, OrderedDict_NoDup. }
  pose proof (merge_auto_fields_keys _ _ _ _ _ HC Hauto) as Hkeys.
  assert (Hnd : NoDup (od_keys entries)).
  { destruct (merge_auto_fields_Ok
                (auto_orm_field_names (all_model_attrs model) only_fields
                   exclude_fields)
                (OrderedDict
                   (prod_map id Declared <$>
                      sorted (fun item => counter_of (heap s) item.2)
                        (custom_orm_fields_items obj_type))) sB)
      as (e & sC' & HC' & _ & _ & _ & _ & Hn & _).
    rewrite HC in HC'. injection HC' as <- <-.
    apply Hn, OrderedDict_NoDup. }
  rewrite (build_fields_keys _ _ _ _ _ _ _ _ _ HD Hnd).
  fold (od_keys entries). rewrite Hkeys.
  rewrite od_keys_OrderedDict_fmap. f_equal.
  apply list_filter_iff. intros k.
  assert (Hk : k ∈ od_keys (OrderedDict
                              (sorted (fun item => counter_of (heap s) item.2)
                                 (custom_orm_fields_items obj_type)))
               ↔ k ∈ (custom_orm_fields_items obj_type).*1).
  { unfold OrderedDict. rewrite od_keys_update_elem.
    rewrite (sorted_Permutation _ (custom_orm_fields_items obj_type)).
    cbn. rewrite elem_of_nil. tauto. }
  by rewrite Hk.
Qed.

End FieldOrder.

Lemma construct_fields_key_order_witness :
  (@construct_fields recording type_two_overrides model_abc 0%nat ["c"] []
     (VBool false) VNone state_two_overrides).1 = Ok fields_two_overrides
  ∧ od_keys fields_two_overrides = ["z"; "b"; "c"].
Proof.
  split; [vm_compute; reflexivity|].
  pose proof (@construct_fields_key_order recording type_two_overrides
                model_abc 0%nat ["c"] [] (VBool false) VNone
                state_two_overrides fields_two_overrides
                (@construct_fields recording type_two_overrides model_abc
                   0%nat ["c"] [] (VBool false) VNone state_two_overrides).2)
    as Horder.
  rewrite Horder; [|vm_compute; reflexivity].
  vm_compute. reflexivity.
Defined.

(** ** Which names get a field *)

Section FieldNames.
Context `{Converters}.

(** X2. A name is a key of the field mapping exactly when an override
    stands under it, or when it is an attribute of the model that
    [only_fields] selects (all of them when it is empty) and
    [exclude_fields] does not list; and no name is a key twice. *)
Theorem construct_fields_key_set obj_type model registry only_fields
    exclude_fields batching connection_field_factory s fields s' :
  construct_fields obj_type model registry only_fields exclude_fields batching
    connection_field_factory s = (Ok fields, s') →
  NoDup (od_keys fields)
  ∧ ∀ k, k ∈ od_keys fields ↔
           k ∈ (custom_orm_fields_items obj_type).*1
           ∨ (k ∈ od_keys (all_model_attrs model)
              ∧ (only_fields = [] ∨ k ∈ only_fields)
              ∧ k ∉ exclude_fields).
Proof.
  intros [Hnd Hkeys]%construct_fields_keys. split; [done|].
  intros k. by rewrite Hkeys, elem_of_auto_orm_field_names.
Qed.

End FieldNames.

Lemma construct_fields_key_set_witness :
  NoDup (od_keys fields_two_overrides)
  ∧ "z" ∈ od_keys fields_two_overrides
  ∧ "a" ∉ od_keys fields_two_overrides.
Proof.
  destruct (@construct_fields_key_set recording type_two_overrides
              model_abc 0%nat ["c"] [] (VBool false) VNone
              state_two_overrides fields_two_overrides
              (@construct_fields recording type_two_overrides model_abc
                 0%nat ["c"] [] (VBool false) VNone state_two_overrides).2)
    as [Hnodup Hkeys]; [vm_compute; reflexivity|].
  split_and!; [done | |].
  - apply Hkeys. left. apply (bool_decide_unpack _). vm_compute. reflexivity.
  - rewrite Hkeys. apply (bool_decide_unpack _). vm_compute. reflexivity.
Defined.

(** ** An override that names no attribute *)

Section UnmappableOverride.
Variables (attrs : odict orm_attr) (obj_type : ObjType).

Lemma set_model_attrs_raises items s :
  NoDup items.*2 →
  (∀ n l, (n, l) ∈ items → is_Some (heap s !! l)) →
  (∃ n l o, (n, l) ∈ items ∧ heap s !! l = Some o
            ∧ lookup_attr (target_attr_name n o) attrs = None) →
  ∃ n s',
    n ∈ items.*1
    ∧ set_model_attrs attrs obj_type items s =
        (Raise (ValueError (cannot_map_message obj_type n)), s')
    ∧ gen_counter s' = gen_counter s
    ∧ registry_orm_fields s' = registry_orm_fields s
    ∧ registry_types s' = registry_types s.
Proof.
  revert s. induction items as [|[n0 l0] rest IH]; intros s.
  - intros _ _ (n & l & o & Hin & _). by apply elem_of_nil in Hin.
  - rewrite fmap_cons, NoDup_cons. cbn [snd]. intros [Hl0 Hnd] Hlive Hbad.
    destruct (Hlive n0 l0) as [o0 Ho0]; [left|].
    destruct (lookup_attr (target_attr_name n0 o0) attrs) as [a|] eqn:Ha.
    + rewrite (set_model_attrs_cons_intro _ _ _ _ _ _ _ _ Ho0 Ha).
      assert (Hother : ∀ n l, (n, l) ∈ rest → l ≠ l0).
      { intros n l Hin ->. apply Hl0. apply list_elem_of_fmap. by exists (n, l0). }
      destruct (IH (with_heap
                      (<[l0 := set_kwarg "model_attr" (target_attr_name n0 o0) o0]>
                         (heap s)) s) Hnd)
        as (n & s' & Hn & Hrun & Hg & Hr & Ht).
      * intros n l Hin. cbn. rewrite lookup_insert_ne by (symmetry; eauto).
        apply (Hlive n l). by right.
      * destruct Hbad as (n & l & o & Hin & Ho & Hnone).
        apply elem_of_cons in Hin as [[= -> ->]|Hin].
        { rewrite Ho0 in Ho. injection Ho as <-. congruence. }
        exists n, l, o. split_and!; [done| |done].
        cbn. rewrite lookup_insert_ne by (symmetry; eauto). done.
      * exists n, s'. split_and!; try done. rewrite fmap_cons. by right.
    + exists n0, s. split_and!; try done.
      * rewrite fmap_cons. left.
      * cbn [set_model_attrs]. unfold bind at 1, load. by rewrite Ho0, Ha.
Qed.

End UnmappableOverride.

Section UnmappableOverrideRaises.
Context `{Converters}.

(** X3. When every override object of the type stands under one name
    only, and an override names an attribute that the model does not
    have (by its model_attr, or else by its own name),
    [construct_fields] raises the [ValueError] that names the type and
    an override that cannot be mapped; it has then written nothing to
    the registry and made no field. The attribute is looked for among
    all the attributes of the model, whatever [only_fields] and
    [exclude_fields] say. *)
Theorem unmappable_override_raises obj_type model registry only_fields
    exclude_fields batching connection_field_factory s n l o :
  NoDup (custom_orm_fields_items obj_type).*2 →
  (∀ n l, (n, l) ∈ custom_orm_fields_items obj_type → is_Some (heap s !! l)) →
  (n, l) ∈ custom_orm_fields_items obj_type →
  heap s !! l = Some o →
  lookup_attr (target_attr_name n o) (all_model_attrs model) = None →
  ∃ n' s',
    n' ∈ (custom_orm_fields_items obj_type).*1
    ∧ construct_fields obj_type model registry only_fields exclude_fields
        batching connection_field_factory s =
        (Raise (ValueError (cannot_map_message obj_type n')), s')
    ∧ gen_counter s' = gen_counter s
    ∧ registry_orm_fields s' = registry_orm_fields s
    ∧ registry_types s' = registry_types s.
Proof.
  intros Hnd Hlive Hin Ho Hnone.
  destruct (set_model_attrs_raises (all_model_attrs model) obj_type
              (sorted (fun item => counter_of (heap s) item.2)
                 (custom_orm_fields_items obj_type)) s)
    as (n' & s' & Hn' & Hrun & Hg & Hr & Ht).
  - by rewrite (sorted_Permutation _ (custom_orm_fields_items obj_type)).
  - intros n0 l0 Hin0%elem_of_sorted. by apply (Hlive n0).
  - exists n, l, o. split_and!; [by apply elem_of_sorted | done | done].
  - exists n', s'. split_and!; try done.
    + by rewrite (sorted_Permutation _ (custom_orm_fields_items obj_type)) in Hn'.
    + unfold construct_fields. unfold bind at 1, get_heap.
      unfold bind at 1. by rewrite Hrun.
Qed.

End UnmappableOverrideRaises.

Lemma unmappable_override_raises_witness :
  ∃ n' s',
    n' ∈ (custom_orm_fields_items type_renamed_y).*1
    ∧ @construct_fields recording type_renamed_y model_abc 0%nat [] []
        (VBool false) VNone state_override_c =
        (Raise (ValueError (cannot_map_message type_renamed_y n')), s')
    ∧ gen_counter s' = gen_counter state_override_c
    ∧ registry_orm_fields s' = registry_orm_fields state_override_c
    ∧ registry_types s' = registry_types state_override_c.
Proof.
  apply (@unmappable_override_raises recording type_renamed_y model_abc 0%nat
           [] [] (VBool false) VNone state_override_c "y" 0%nat
           (mkORMField 1 {[ "description" := VStr "kept" ]})).
  - vm_compute. apply NoDup_singleton.
  - intros n l Hin. vm_compute in Hin.
    apply list_elem_of_singleton in Hin as [= -> ->]. by eexists.
  - vm_compute. apply list_elem_of_singleton. reflexivity.
  - reflexivity.
  - reflexivity.
Defined.

(** ** An override on a composite *)

Lemma od_get_elem_NoDup {V} (k : string) (v : V) (d : odict V) :
  NoDup (od_keys d) → (k, v) ∈ d → od_get k d = Some v.
Proof.
  unfold od_keys. induction d as [|[k0 v0] d IH]; [by intros _ ?%elem_of_nil|].
  rewrite fmap_cons, NoDup_cons. cbn [fst od_get]. intros [Hk0 Hnd].
  intros [[= -> ->]|Hin]%elem_of_cons.
  - by rewrite decide_True.
  - rewrite decide_False; [by apply IH|].
    intros ->. apply Hk0. apply list_elem_of_fmap. by exists (k0, v).
Qed.

Section CompositeOverride.
Context `{Converters}.

(** X4. When the overrides of the type have distinct names and every
    override object stands under one name only, an override that
    stands for a composite attribute never gives a field mapping when
    it carries any option, or when its exposed name is not the name of
    the composite: [construct_fields] raises. *)
Theorem composite_override_never_builds obj_type model registry only_fields
    exclude_fields batching connection_field_factory s n l o target id :
  NoDup (custom_orm_fields_items obj_type).*1 →
  NoDup (custom_orm_fields_items obj_type).*2 →
  (n, l) ∈ custom_orm_fields_items obj_type →
  heap s !! l = Some o →
  target_attr_name n o = VStr target →
  od_get target (all_model_attrs model) = Some (CompositeProperty id) →
  target ≠ n ∨ delete "model_attr" (kwargs o) ≠ ∅ →
  is_Ok (construct_fields obj_type model registry only_fields exclude_fields
           batching connection_field_factory s).1 = false.
Proof.
  intros Hnames Hlocs Hin Ho Htarget Hcomposite Hcustom.
  destruct (construct_fields _ _ _ _ _ _ _ s) as [[fields|e] s'] eqn:Hrun;
    [exfalso|done].
  destruct (construct_fields_phases _ _ _ _ _ _ _ _ _ _ Hrun Hlocs)
    as (sB & entries & sC & HB & HC & HD & Hheap & _ & _ & Hn & Hl & _ & Hget).
  assert (Hsorted_names :
            NoDup (sorted (fun item => counter_of (heap s) item.2)
                     (custom_orm_fields_items obj_type)).*1).
  { by rewrite (sorted_Permutation _ (custom_orm_fields_items obj_type)). }
  assert (Hsorted_locs :
            NoDup (sorted (fun item => counter_of (heap s) item.2)
                     (custom_orm_fields_items obj_type)).*2).
  { by rewrite (sorted_Permutation _ (custom_orm_fields_items obj_type)). }
  assert (Hentry : (n, Declared l) ∈ entries).
  { apply od_get_Some_elem, Hget. rewrite OrderedDict_fresh.
    - apply od_get_elem_NoDup.
      + unfold od_keys. rewrite <- list_fmap_compose.
        erewrite list_fmap_ext; [exact Hsorted_names|]. by intros i [??] _.
      + apply list_elem_of_fmap. exists (n, l). split; [done|].
        by apply elem_of_sorted.
    - rewrite <- list_fmap_compose.
      erewrite list_fmap_ext; [exact Hsorted_names|]. by intros i [??] _. }
  destruct (build_fields_Ok_spec _ _ _ _ _ _ _ _ _ _ HD Hn Hl)
    as (_ & _ & _ & Hdecl).
  destruct (Hdecl n l Hentry) as (oB & field & attr & o' & HoB & Hbody & _).
  destruct (set_model_attrs_Ok _ _ _ _ _ HB Hsorted_locs)
    as (_ & _ & _ & _ & Hset).
  destruct (Hset n l) as (o0 & a0 & Ho0 & _ & Hstored);
    [by apply elem_of_sorted|].
  rewrite Ho in Ho0. injection Ho0 as <-.
  rewrite Hheap, Hstored in HoB. injection HoB as <-.
  revert Hbody. unfold build_field. cbn [set_kwarg kwargs].
  rewrite lookup_insert_eq, Htarget. cbn [lookup_attr]. rewrite Hcomposite.
  rewrite decide_True; [done|].
  unfold del_kwarg, set_kwarg. cbn [kwargs]. rewrite delete_insert_eq.
  destruct Hcustom; [by left | by right].
Qed.

End CompositeOverride.

Lemma composite_override_never_builds_witness :
  is_Ok (@construct_fields recording type_composite model_reporter 0%nat [] []
           (VBool false) VNone state_reporter).1 = false.
Proof.
  apply (@composite_override_never_builds recording type_composite
           model_reporter 0%nat [] [] (VBool false) VNone state_reporter
           "composite_prop" 0%nat
           (mkORMField 1 {[ "description" := VStr "both names" ]})
           "composite_prop" 3%nat).
  - vm_compute. apply NoDup_singleton.
  - vm_compute. apply NoDup_singleton.
  - vm_compute. apply list_elem_of_singleton. reflexivity.
  - reflexivity.
  - reflexivity.
  - reflexivity.
  - right. intros Hempty.
    apply (f_equal (lookup "description")) in Hempty.
    vm_compute in Hempty. discriminate Hempty.
Defined.

(** ** What the builder writes, and what it leaves alone *)

Section Effects.
Context `{Converters}.
Variables (obj_type : ObjType) (registry : nat)
  (batching connection_field_factory : value) (attrs : odict orm_attr).

Local Abbreviation body :=
  (build_field obj_type registry batching connection_field_factory attrs).
Local Abbreviation loop :=
  (build_fields obj_type registry batching connection_field_factory attrs).
Local Abbreviation record_key n := (registry, type_id obj_type, n).

Lemma build_field_counter n o :
  creation_counter (body n o).2 = creation_counter o.
Proof.
  unfold build_field.
  destruct (kwargs o !! "model_attr") as [[| | |target|]|]; try done.
  cbn [lookup_attr]. destruct (od_get target attrs) as [a|]; [|done].
  destruct a; try done. by case_decide.
Qed.

Lemma set_model_attrs_effects items s r s' :
  set_model_attrs attrs obj_type items s = (r, s') →
  gen_counter s' = gen_counter s
  ∧ registry_orm_fields s' = registry_orm_fields s
  ∧ registry_types s' = registry_types s
  ∧ (∀ l, l ∉ items.*2 → heap s' !! l = heap s !! l)
  ∧ (∀ l, creation_counter <$> heap s' !! l = creation_counter <$> heap s !! l).
Proof.
  revert s. induction items as [|[n0 l0] rest IH]; intros s.
  { by intros [= <- <-]. }
  cbn [set_model_attrs]. unfold bind at 1, load.
  destruct (heap s !! l0) as [o0|] eqn:Ho0; [|by intros [= <- <-]].
  destruct (lookup_attr (target_attr_name n0 o0) attrs) as [a|];
    [|by intros [= <- <-]].
  unfold bind at 1, store. intros Hrest.
  destruct (IH _ Hrest) as (Hg & Hr & Ht & Hframe & Hc).
  split_and!; try done.
  - intros l Hl. rewrite fmap_cons, not_elem_of_cons in Hl. cbn in Hl.
    destruct Hl as [Hne Hl]. rewrite (Hframe l Hl). cbn.
    by rewrite lookup_insert_ne.
  - intros l. rewrite Hc. cbn. destruct (decide (l0 = l)) as [<-|Hne].
    + by rewrite lookup_insert_eq, Ho0.
    + by rewrite lookup_insert_ne.
Qed.

Lemma build_fields_effects entries fields s r s' :
  loop entries fields s = (r, s') →
  gen_counter s' = gen_counter s
  ∧ registry_types s' = registry_types s
  ∧ (∀ l, l ∉ declared_locs entries → heap s' !! l = heap s !! l)
  ∧ (∀ l, creation_counter <$> heap s' !! l = creation_counter <$> heap s !! l)
  ∧ (∀ key, (∀ n, n ∈ entries.*1 → key ≠ record_key n) →
            registry_orm_fields s' !! key = registry_orm_fields s !! key).
Proof.
  revert fields s. induction entries as [|[n0 r0] rest IH]; intros fields s.
  { by intros [= <- <-]. }
  cbn [build_fields]. unfold bind at 1.
  pose proof (deref_state r0 s) as Hst.
  destruct (deref r0 s) as [[o0|e] s0] eqn:Hderef; cbn in Hst; subst s0;
    [|by intros [= <- <-]].
  pose proof (build_field_counter n0 o0) as Hcounter.
  destruct (body n0 o0) as [result o0']. cbn in Hcounter.
  assert (Hwb : ∃ s1, write_back r0 o0' s = (Ok tt, s1)
                      ∧ gen_counter s1 = gen_counter s
                      ∧ registry_types s1 = registry_types s
                      ∧ registry_orm_fields s1 = registry_orm_fields s
                      ∧ (∀ l, l ∉ declared_locs ((n0, r0) :: rest) →
                              heap s1 !! l = heap s !! l)
                      ∧ (∀ l, creation_counter <$> heap s1 !! l
                              = creation_counter <$> heap s !! l)).
  { destruct r0 as [l0|c0]; cbn.
    - eexists. split_and!; try done; cbn.
      + intros l Hl. rewrite lookup_insert_ne; [done|]. intros ->.
        apply Hl. left.
      + intros l. destruct (decide (l0 = l)) as [<-|Hne].
        * rewrite lookup_insert_eq. cbn in Hderef. unfold load in Hderef.
          destruct (heap s !! l0) as [o|]; [|done].
          injection Hderef as ->. cbn. by rewrite Hcounter.
        * by rewrite lookup_insert_ne.
    - eexists. split_and!; done. }
  destruct Hwb as (s1 & Hwb & Hg1 & Ht1 & Hr1 & Hframe1 & Hc1).
  unfold bind at 1. rewrite Hwb.
  destruct result as [[field attr]|e].
  2: { intros [= <- <-]. split_and!; try done. intros key _. by rewrite Hr1. }
  unfold bind at 1. cbn [register_orm_field]. intros Hrest.
  destruct (IH _ _ Hrest) as (Hg & Ht & Hframe & Hc & Hreg).
  split_and!.
  - by rewrite Hg.
  - by rewrite Ht.
  - intros l Hl. rewrite Hframe.
    + cbn. by apply Hframe1.
    + intros [n Hn]%elem_of_declared_locs. apply Hl.
      apply elem_of_declared_locs. exists n. by right.
  - intros l. rewrite Hc. cbn. apply Hc1.
  - intros key Hkey. rewrite Hreg.
    + cbn. rewrite lookup_insert_ne; [by rewrite Hr1|].
      intros <-. eapply (Hkey n0); [left|done].
    + intros n Hn. apply Hkey. rewrite fmap_cons. by right.
Qed.

Lemma merge_auto_fields_counter auto od s entries s' :
  merge_auto_fields auto od s = (Ok entries, s') →
  NoDup auto →
  gen_counter s' =
    (gen_counter s
     + Z.of_nat (List.length (filter (fun n => n ∉ od_keys od) auto)))%Z.
Proof.
  revert od s. induction auto as [|n rest IH]; intros od s.
  - intros [= <- <-] _. cbn. lia.
  - cbn [merge_auto_fields]. rewrite NoDup_cons. intros Hrun [Hn Hnd].
    rewrite filter_cons.
    destruct (od_contains n od) eqn:Hc.
    + apply od_contains_true in Hc. rewrite decide_False by tauto.
      by apply (IH od s).
    + assert (Hfresh : n ∉ od_keys od).
      { intros Hin%od_contains_true. congruence. }
      rewrite decide_True by done.
      unfold bind at 1 in Hrun. rewrite new_ORMField_spec in Hrun.
      rewrite (IH _ _ Hrun Hnd). cbn [gen_counter List.length].
      rewrite od_keys_set, decide_False by done.
      replace (filter (fun n0 => n0 ∉ od_keys od ++ [n]) rest)
        with (filter (fun n0 => n0 ∉ od_keys od) rest); [lia|].
      apply filter_iff_elem. intros k Hk.
      rewrite elem_of_app, list_elem_of_singleton.
      split; [|tauto]. intros Hni [?| ->]; done.
Qed.

End Effects.

Section ConstructFieldsEffects.
Context `{Converters}.

(** X5. Whether it returns or raises, [construct_fields] registers no type,
    never lowers the class-wide creation counter, leaves every
    [ORMField] object that is not declared on the chain of the type as
    it was, changes the creation counter of no object, and writes no
    record of another registry or of another type. *)
Theorem construct_fields_leaves_alone obj_type model registry only_fields
    exclude_fields batching connection_field_factory s :
  let s' := (construct_fields obj_type model registry only_fields
               exclude_fields batching connection_field_factory s).2 in
  registry_types s' = registry_types s
  ∧ (gen_counter s ≤ gen_counter s')%Z
  ∧ (∀ l, l ∉ (custom_orm_fields_items obj_type).*2 →
          heap s' !! l = heap s !! l)
  ∧ (∀ l, creation_counter <$> heap s' !! l = creation_counter <$> heap s !! l)
  ∧ (∀ registry' type_id' k,
       (registry', type_id') ≠ (registry, type_id obj_type) →
       registry_orm_fields s' !! (registry', type_id', k)
       = registry_orm_fields s !! (registry', type_id', k)).
Proof.
  cbv zeta.
  destruct (construct_fields obj_type model registry only_fields exclude_fields
              batching connection_field_factory s) as [r s'] eqn:Hrun.
  cbn [snd]. revert Hrun.
  unfold construct_fields. unfold bind at 1, get_heap. unfold bind at 1.
  set (items := sorted (fun item => counter_of (heap s) item.2)
                  (custom_orm_fields_items obj_type)).
  destruct (set_model_attrs (all_model_attrs model) obj_type items s)
    as [rB sB] eqn:HB.
  destruct (set_model_attrs_effects _ _ _ _ _ _ HB) as (HgB & HrB & HtB & HfB & HcB).
  assert (Hitems : ∀ l, l ∉ (custom_orm_fields_items obj_type).*2 → l ∉ items.*2).
  { intros l Hl. unfold items.
    by rewrite (sorted_Permutation _ (custom_orm_fields_items obj_type)). }
  destruct rB as [[]|e].
  2: { intros [= <- <-].
       split_and!; try done; [lia | by auto | intros; by rewrite HrB]. }
  unfold bind at 1.
  destruct (merge_auto_fields_Ok
              (auto_orm_field_names (all_model_attrs model) only_fields
                 exclude_fields)
              (OrderedDict (prod_map id Declared <$> items)) sB)
    as (entries & sC & HC & HhC & HrC & HtC & _ & _ & _ & Hdecl).
  rewrite HC.
  pose proof (merge_auto_fields_counter _ _ _ _ _ HC
                (auto_orm_field_names_NoDup _ _ _ (OrderedDict_NoDup _))) as HgC.
  intros HD.
  destruct (build_fields_effects _ _ _ _ _ _ _ _ _ _ HD)
    as (HgD & HtD & HfD & HcD & HrD).
  split_and!.
  - congruence.
  - rewrite HgD, HgC, HgB. lia.
  - intros l Hl. rewrite HfD.
    + rewrite HhC. by apply HfB, Hitems.
    + intros [n Hn]%elem_of_declared_locs.
      apply Hdecl, elem_of_custom_entry in Hn. apply (Hitems l Hl).
      apply list_elem_of_fmap. by exists (n, l).
  - intros l. by rewrite HcD, HhC, HcB.
  - intros registry' type_id' k Hne. rewrite HrD; [by rewrite HrC, HrB|].
    intros n _ [= -> ->]. done.
Qed.

(** X6. When it returns, the class-wide creation counter has advanced by
    at least one for every field that no override stands for: each of
    them takes a value of the counter for the [ORMField] that is made
    for it. (The conversion functions may take further values; they
    can give none back.) *)
Theorem construct_fields_counter_advance obj_type model registry only_fields
    exclude_fields batching connection_field_factory s fields s' :
  construct_fields obj_type model registry only_fields exclude_fields batching
    connection_field_factory s = (Ok fields, s') →
  (gen_counter s
   + Z.of_nat (List.length
                 (filter (fun n => n ∉ (custom_orm_fields_items obj_type).*1)
                    (auto_orm_field_names (all_model_attrs model)
                       only_fields exclude_fields)))
   ≤ gen_counter s')%Z.
Proof.
  intros (sB & entries & sC & HB & HC & HD)%construct_fields_Ok.
  destruct (set_model_attrs_effects _ _ _ _ _ _ HB) as (HgB & _).
  destruct (build_fields_effects _ _ _ _ _ _ _ _ _ _ HD) as (HgD & _).
  rewrite HgD,
    (merge_auto_fields_counter _ _ _ _ _ HC
       (auto_orm_field_names_NoDup _ _ _ (OrderedDict_NoDup _))), HgB.
  apply Z.eq_le_incl. do 3 f_equal. apply list_filter_iff. intros k.
  by rewrite elem_of_custom_entries,
    (sorted_Permutation _ (custom_orm_fields_items obj_type)).
Qed.

End ConstructFieldsEffects.

Lemma construct_fields_counter_advance_witness :
  gen_counter state_two_overrides = 6%Z
  ∧ (6 + 1
     ≤ gen_counter
         (@construct_fields recording type_two_overrides model_abc 0%nat ["c"]
            [] (VBool false) VNone state_two_overrides).2)%Z.
Proof.
  split; [reflexivity|].
  apply (@construct_fields_counter_advance recording type_two_overrides
           model_abc 0%nat ["c"] [] (VBool false) VNone
           state_two_overrides fields_two_overrides
           (@construct_fields recording type_two_overrides model_abc
              0%nat ["c"] [] (VBool false) VNone state_two_overrides).2).
  vm_compute. reflexivity.
Defined.

(** ** The records of the registry, and the options of the converters *)

Lemma merge_auto_fields_created auto od s entries s' n c :
  merge_auto_fields auto od s = (Ok entries, s') →
  (n, Created c) ∈ entries →
  (n, Created c) ∈ od ∨ kwargs c = <["model_attr" := VStr n]> ∅.
Proof.
  revert od s. induction auto as [|n0 rest IH]; intros od s.
  - intros [= <- <-] Hin. by left.
  - cbn [merge_auto_fields]. destruct (od_contains n0 od).
    + apply IH.
    + unfold bind at 1. rewrite new_ORMField_spec. intros Hrun Hin.
      destruct (IH _ _ Hrun Hin) as [Hset|Hc]; [|by right].
      apply od_set_elem in Hset as [[= -> ->]|Hod]; [by right | by left].
Qed.

Section BuiltEntries.
Context `{Converters}.
Variables (obj_type : ObjType) (registry : nat)
  (batching connection_field_factory : value) (attrs : odict orm_attr).

Local Abbreviation body :=
  (build_field obj_type registry batching connection_field_factory attrs).
Local Abbreviation loop :=
  (build_fields obj_type registry batching connection_field_factory attrs).

(** Every entry of a loop that ends without an error has its field in
    the mapping and its attribute in the registry, both as the body of
    the loop made them. *)
Lemma build_fields_entries entries fields s result s' :
  loop entries fields s = (Ok result, s') →
  NoDup entries.*1 →
  ∀ n r, (n, r) ∈ entries →
    ∃ o field attr o',
      (∀ c, r = Created c → o = c)
      ∧ body n o = (Ok (field, attr), o')
      ∧ registry_orm_fields s' !! (registry, type_id obj_type, n) = Some attr
      ∧ od_get n result = Some field.
Proof.
  revert fields s. induction entries as [|[n0 r0] rest IH]; intros fields s.
  - intros _ _ n r Hin. by apply elem_of_nil in Hin.
  - intros Hrun. rewrite fmap_cons, NoDup_cons. cbn [fst]. intros [Hn0 Hnd].
    apply build_fields_cons_Ok in Hrun
      as (o0 & field0 & attr0 & o0' & Hderef & Hbody & Hrest).
    intros n r [[= -> ->]|Hin]%elem_of_cons.
    + exists o0, field0, attr0, o0'. split_and!.
      * intros c ->. cbn in Hderef. by injection Hderef as <-.
      * done.
      * destruct (build_fields_effects _ _ _ _ _ _ _ _ _ _ Hrest)
          as (_ & _ & _ & _ & Hreg).
        rewrite Hreg.
        -- unfold after_entry. cbn. destruct r0; cbn; apply lookup_insert_eq.
        -- intros n Hn [= ->]. done.
      * rewrite (build_fields_get_other _ _ _ _ _ _ _ _ _ _ _ Hrest Hn0).
        rewrite od_get_set. by rewrite decide_True.
    + by apply (IH _ _ Hrest Hnd).
Qed.

End BuiltEntries.

Section RegistryRecordsOfFields.
Context `{Converters}.

(** X7. When [construct_fields] returns, the registry holds, for the type
    and each name of the mapping, an attribute of the model: the
    attribute of that name when no override stands under the name. *)
Theorem construct_fields_registers_fields obj_type model registry only_fields
    exclude_fields batching connection_field_factory s fields s' :
  construct_fields obj_type model registry only_fields exclude_fields batching
    connection_field_factory s = (Ok fields, s') →
  ∀ k, k ∈ od_keys fields →
    (∃ attr target,
       registry_orm_fields s' !! (registry, type_id obj_type, k) = Some attr
       ∧ od_get target (all_model_attrs model) = Some attr)
    ∧ (k ∉ (custom_orm_fields_items obj_type).*1 →
       registry_orm_fields s' !! (registry, type_id obj_type, k)
       = od_get k (all_model_attrs model)).
Proof.
  intros (sB & entries & sC & HB & HC & HD)%construct_fields_Ok k Hk.
  destruct (merge_auto_fields_Ok
              (auto_orm_field_names (all_model_attrs model) only_fields
                 exclude_fields)
              (OrderedDict
                 (prod_map id Declared <$>
                    sorted (fun item => counter_of (heap s) item.2)
                      (custom_orm_fields_items obj_type))) sB)
    as (e & sC' & HC' & _ & _ & _ & _ & Hnd & _ & Hdecl).
  rewrite HC in HC'. injection HC' as <- <-.
  specialize (Hnd (OrderedDict_NoDup _)).
  rewrite (build_fields_keys _ _ _ _ _ _ _ _ _ HD Hnd) in Hk.
  apply list_elem_of_fmap in Hk as ([k' r] & -> & Hin). cbn [fst].
  destruct (build_fields_entries _ _ _ _ _ _ _ _ _ _ HD Hnd k' r Hin)
    as (o & field & attr & o' & Hcreated & Hbody & Hreg & _).
  destruct (build_field_Ok_object _ _ _ _ _ _ _ _ _ _ Hbody)
    as (_ & target & Hma & Hattr & _).
  split; [by exists attr, target|].
  intros Hauto. rewrite Hreg.
  destruct r as [l|c].
  - exfalso. apply Hauto. apply Hdecl, elem_of_custom_entry in Hin.
    apply list_elem_of_fmap. exists (k', l). split; [done|].
    by apply elem_of_sorted in Hin.
  - rewrite (Hcreated c eq_refl) in Hma.
    destruct (merge_auto_fields_created _ _ _ _ _ _ _ HC Hin) as [Hod|Hc].
    + apply od_update_elem in Hod as [Hod|Hod]; [by apply elem_of_nil in Hod|].
      apply list_elem_of_fmap in Hod as ([??] & [=] & _).
    + rewrite Hc, lookup_insert_eq in Hma. injection Hma as <-. done.
Qed.

(** X8. No converter is handed model_attr among its options, and the
    relationship converter is not handed batching there either: it
    gets batching as an argument of its own. *)
Theorem converters_never_get_model_attr obj_type model registry only_fields
    exclude_fields batching connection_field_factory s fields s' k field :
  @construct_fields recording obj_type model registry only_fields
    exclude_fields batching connection_field_factory s = (Ok fields, s') →
  od_get k fields = Some field →
  passed_options field !! "model_attr" = None
  ∧ ∀ attr type factory batching_ name options,
      field = RelationshipField attr type factory batching_ name options →
      options !! "batching" = None.
Proof.
  intros (sB & entries & sC & HB & HC & HD)%construct_fields_Ok Hfield.
  destruct (merge_auto_fields_Ok
              (auto_orm_field_names (all_model_attrs model) only_fields
                 exclude_fields)
              (OrderedDict
                 (prod_map id Declared <$>
                    sorted (fun item => counter_of (heap s) item.2)
                      (custom_orm_fields_items obj_type))) sB)
    as (e & sC' & HC' & _ & _ & _ & _ & Hnd & _).
  rewrite HC in HC'. injection HC' as <- <-.
  specialize (Hnd (OrderedDict_NoDup _)).
  assert (Hk : k ∈ od_keys fields) by (apply od_get_is_Some; eauto).
  rewrite (@build_fields_keys recording _ _ _ _ _ _ _ _ _ HD Hnd) in Hk.
  apply list_elem_of_fmap in Hk as ([k' r] & -> & Hin). cbn [fst] in *.
  destruct (@build_fields_entries recording _ _ _ _ _ _ _ _ _ _ HD Hnd k' r Hin)
    as (o & field' & attr & o' & _ & Hbody & _ & Hget).
  rewrite Hfield in Hget. injection Hget as <-.
  split.
  - apply passed_options_subseteq in Hbody.
    eapply lookup_weaken_None; [|exact Hbody]. apply lookup_delete_eq.
  - intros a t f b nm options ->. revert Hbody. unfold build_field.
    destruct (kwargs o !! "model_attr") as [[| | |target|]|]; try done.
    cbn [lookup_attr].
    destruct (od_get target (all_model_attrs model)) as [[]|]; cbn; try done.
    + case_decide; done.
    + intros [= _ _ _ _ _ <- _ _]. apply lookup_delete_eq.
Qed.

End RegistryRecordsOfFields.

Lemma construct_fields_registers_fields_witness :
  (∃ attr target,
     registry_orm_fields
       (@construct_fields recording type_two_overrides model_abc 0%nat ["c"]
          [] (VBool false) VNone state_two_overrides).2
       !! (0%nat, type_id type_two_overrides, "z") = Some attr
     ∧ od_get target (all_model_attrs model_abc) = Some attr)
  ∧ ("z" ∉ (custom_orm_fields_items type_two_overrides).*1 →
     registry_orm_fields
       (@construct_fields recording type_two_overrides model_abc 0%nat ["c"]
          [] (VBool false) VNone state_two_overrides).2
       !! (0%nat, type_id type_two_overrides, "z")
     = od_get "z" (all_model_attrs model_abc)).
Proof.
  apply (@construct_fields_registers_fields recording type_two_overrides
           model_abc 0%nat ["c"] [] (VBool false) VNone state_two_overrides
           fields_two_overrides).
  - vm_compute. reflexivity.
  - apply (bool_decide_unpack _). vm_compute. reflexivity.
Defined.

Lemma converters_never_get_model_attr_witness :
  od_get "articles"
    (default []
       (match (@construct_fields recording type_batching model_reporter 0%nat
                 [] [] (VBool false) VNone state_reporter).1 with
        | Ok fields => Some fields
        | Raise _ => None
        end)) = Some field_articles
  ∧ passed_options field_articles !! "model_attr" = None
  ∧ ∀ attr type factory batching_ name options,
      field_articles =
        RelationshipField attr type factory batching_ name options →
      options !! "batching" = None.
Proof.
  split; [vm_compute; reflexivity|].
  destruct (@construct_fields recording type_batching model_reporter 0%nat
              [] [] (VBool false) VNone state_reporter) as [r s'] eqn:Hrun.
  destruct r as [fields|e]; [|vm_compute in Hrun; discriminate Hrun].
  apply (converters_never_get_model_attr type_batching model_reporter 0%nat
           [] [] (VBool false) VNone state_reporter fields s' "articles");
    [exact Hrun|].
  vm_compute in Hrun. injection Hrun as <- _. reflexivity.
Defined.

(** ** The type constructor *)

Section TypeConstructorMore.
Context `{Converters}.

Lemma construct_fields_registry_types obj_type model registry only_fields
    exclude_fields batching connection_field_factory s r s' :
  construct_fields obj_type model registry only_fields exclude_fields batching
    connection_field_factory s = (r, s') →
  registry_types s' = registry_types s.
Proof.
  unfold construct_fields. unfold bind at 1, get_heap. unfold bind at 1.
  destruct (set_model_attrs _ _ _ s) as [rB sB] eqn:HB.
  destruct (set_model_attrs_effects _ _ _ _ _ _ HB) as (_ & _ & HtB & _).
  destruct rB as [[]|e]; [|by intros [= <- <-]].
  unfold bind at 1.
  destruct (merge_auto_fields_Ok
              (auto_orm_field_names (all_model_attrs model) only_fields
                 exclude_fields)
              (OrderedDict
                 (prod_map id Declared <$>
                    sorted (fun item => counter_of (heap s) item.2)
                      (custom_orm_fields_items obj_type))) sB)
    as (entries & sC & HC & _ & _ & HtC & _).
  rewrite HC. intros HD.
  destruct (build_fields_effects _ _ _ _ _ _ _ _ _ _ HD) as (_ & HtD & _).
  congruence.
Qed.

(** The construction of a type that ends without an error, step by
    step. *)
Lemma init_subclass_Ok cls model registry skip_registry only_fields
    exclude_fields connection connection_class use_connection interfaces id
    batching connection_field_factory _meta s options s' :
  __init_subclass_with_meta__ cls model registry skip_registry only_fields
    exclude_fields connection connection_class use_connection interfaces id
    batching connection_field_factory _meta s = (Ok options, s') →
  ∃ m r constructed s1,
    model = Some m
    ∧ checked_registry registry = Some r
    ∧ ¬ (only_fields ≠ [] ∧ exclude_fields ≠ [])
    ∧ construct_fields cls m r only_fields exclude_fields batching
        connection_field_factory s = (Ok constructed, s1)
    ∧ meta_model options = Some m
    ∧ meta_registry options = Some r
    ∧ meta_id options = Some (id_or_default id)
    ∧ meta_fields options =
        Some (merge_meta_fields (meta_fields (default new_options _meta))
                (yank_fields_from_attrs constructed))
    ∧ meta_connection options =
        match connection with
        | Some c => Some c
        | None =>
            if wants_connection use_connection interfaces
            then Some (create_type connection_class
                         (type_name cls ++ "Connection") cls)
            else None
        end
    ∧ (∀ c, meta_connection options = Some c → is_Connection c = true)
    ∧ s' = (if skip_registry then s1
            else mkState (heap s1) (gen_counter s1) (registry_orm_fields s1)
                   (<[(r, model_id m) := type_id cls]> (registry_types s1))).
Proof.
  unfold __init_subclass_with_meta__.
  destruct model as [m|]; [|done].
  destruct (checked_registry registry) as [r|]; [|done].
  case_decide as Hboth; [done|].
  unfold bind at 1.
  destruct (construct_fields _ _ _ _ _ _ _ s) as [[constructed|e] s1] eqn:Hc;
    [|done].
  set (final := match
                  match use_connection, interfaces with
                  | None, _ :: _ => Some (existsb is_Node interfaces)
                  | _, _ => use_connection
                  end, connection
                with
                | Some true, None =>
                    Some (create_type connection_class
                            (type_name cls ++ "Connection") cls)
                | _, _ => connection
                end).
  assert (Hfinal : final =
            match connection with
            | Some c => Some c
            | None =>
                if wants_connection use_connection interfaces
                then Some (create_type connection_class
                             (type_name cls ++ "Connection") cls)
                else None
            end).
  { unfold final, wants_connection.
    destruct use_connection as [[]|], interfaces as [|i rest], connection;
      try done; cbn; by destruct (is_Node i || existsb is_Node rest). }
  unfold bind at 1.
  destruct final as [c|] eqn:Hfin.
  - destruct (is_Connection c) eqn:Hconn; [|done].
    unfold bind at 1. cbn [ret].
    intros Hrest. exists m, r, constructed, s1.
    destruct skip_registry; cbn in Hrest; injection Hrest as <- <-;
      cbn; split_and!; try done; by intros ? [= <-].
  - unfold bind at 1. cbn [ret].
    intros Hrest. exists m, r, constructed, s1.
    destruct skip_registry; cbn in Hrest; injection Hrest as <- <-;
      cbn; split_and!; done.
Qed.


(** X10. After the construction of a type its options carry the model, the
    registry (the global one when none was given) and an identifier
    name that is not empty: the one given, or "id". *)
Theorem constructed_type_options cls model registry skip_registry
    only_fields exclude_fields connection connection_class use_connection
    interfaces id batching connection_field_factory _meta s options s' :
  __init_subclass_with_meta__ cls model registry skip_registry only_fields
    exclude_fields connection connection_class use_connection interfaces id
    batching connection_field_factory _meta s = (Ok options, s') →
  meta_model options = model
  ∧ meta_registry options = checked_registry registry
  ∧ (registry = NoRegistry → meta_registry options = Some global_registry)
  ∧ ∃ name, meta_id options = Some name
            ∧ name ≠ ""
            ∧ (∀ i, id = Some i → i ≠ "" → name = i)
            ∧ (id = None ∨ id = Some "" → name = "id").
Proof.
  intros (m & r & constructed & s1 & -> & Hr & _ & _ & Hm & Hreg & Hid & _)
    %init_subclass_Ok.
  split_and!; [done | congruence | |].
  - intros ->. by rewrite Hreg, <- Hr.
  - exists (id_or_default id). split_and!; [done | | |].
    + unfold id_or_default. destruct id as [i|]; [|done]. by case_decide.
    + intros i -> Hi. unfold id_or_default. by rewrite decide_False.
    + intros [-> | ->]; done.
Qed.

(** X11. The construction of a type changes the types of the registry
    at most by mapping the model to the type, in place of an earlier
    type of that model; and it leaves them as they were whenever it
    ends with an error or [skip_registry] is set. *)
Theorem construction_registers_at_most_the_type cls model registry
    skip_registry only_fields exclude_fields connection connection_class
    use_connection interfaces id batching connection_field_factory _meta s :
  let result :=
    __init_subclass_with_meta__ cls model registry skip_registry only_fields
      exclude_fields connection connection_class use_connection interfaces id
      batching connection_field_factory _meta s in
  (is_Ok result.1 = false ∨ skip_registry = true →
   registry_types result.2 = registry_types s)
  ∧ (registry_types result.2 = registry_types s
     ∨ ∃ m r, model = Some m
              ∧ checked_registry registry = Some r
              ∧ registry_types result.2 =
                  <[(r, model_id m) := type_id cls]> (registry_types s)).
Proof.
  cbv zeta.
  destruct (__init_subclass_with_meta__ _ _ _ _ _ _ _ _ _ _ _ _ _ _ s)
    as [[options|e] s'] eqn:Hrun; cbn [fst snd].
  - apply init_subclass_Ok in Hrun
      as (m & r & constructed & s1 & -> & Hr & _ & Hc & _ & _ & _ & _ & _ & _
          & ->).
    apply construct_fields_registry_types in Hc.
    destruct skip_registry; cbn [registry_types].
    + split; [by intros _ | by left].
    + split; [by intros [[=]|[=]]|]. right. exists m, r. by rewrite Hc.
  - assert (Hsame : registry_types s' = registry_types s);
      [|split; [done | by left]].
    revert Hrun. unfold __init_subclass_with_meta__.
    destruct model as [m|]; [|by intros [= _ <-]].
    destruct (checked_registry registry) as [r|]; [|by intros [= _ <-]].
    case_decide; [by intros [= _ <-]|].
    unfold bind at 1.
    destruct (construct_fields _ _ _ _ _ _ _ s) as [[constructed|e'] s1] eqn:Hc;
      apply construct_fields_registry_types in Hc; [|by intros [= _ <-]].
    unfold bind at 1.
    match goal with
    | |- context [match ?c with Some _ => _ | None => ret () end s1] =>
        destruct c as [c'|]
    end.
    + destruct (is_Connection c'); cbn.
      * unfold bind at 1. destruct skip_registry; cbn; by intros [=].
      * by intros [= _ <-].
    + cbn. unfold bind at 1. destruct skip_registry; cbn; by intros [=].
Qed.


End TypeConstructorMore.


Lemma constructed_type_options_witness :
  meta_model options_node = Some model_abc
  ∧ meta_registry options_node = Some global_registry
  ∧ meta_id options_node = Some "id".
Proof.
  destruct (@constructed_type_options recording type_plain (Some model_abc)
              NoRegistry false [] [] None None None [node_interface] (Some "")
              (VBool false) VNone None state_empty options_node
              (@__init_subclass_with_meta__ recording type_plain
                 (Some model_abc) NoRegistry false [] [] None None None
                 [node_interface] (Some "") (VBool false) VNone None
                 state_empty).2)
    as (Hmodel & _ & Hregistry & name & Hid & _ & _ & Hdefault);
    [vm_compute; reflexivity|].
  split_and!; [exact Hmodel | apply Hregistry; reflexivity |].
  rewrite Hid. f_equal. apply Hdefault. right. reflexivity.
Defined.


Section RejectedDeclarations.
Context `{Converters}.

(** X13. A declaration without a mapped model, with a registry that is not
    a [Registry], or with both [only_fields] and [exclude_fields] is
    rejected before anything is touched. A connection that is not a
    [Connection] is rejected only after the fields are built: what the
    field builder did, the records of the registry included, stays. *)
Theorem rejected_declarations cls model registry skip_registry only_fields
    exclude_fields connection connection_class use_connection interfaces id
    batching connection_field_factory _meta s :
  (model = None ∨ checked_registry registry = None
   ∨ (only_fields ≠ [] ∧ exclude_fields ≠ []) →
   ∃ e,
     __init_subclass_with_meta__ cls model registry skip_registry only_fields
       exclude_fields connection connection_class use_connection interfaces id
       batching connection_field_factory _meta s = (Raise e, s)
     ∧ match e with
       | AssertionError _ => model = None ∨ checked_registry registry = None
       | ValueError _ =>
           is_Some model ∧ is_Some (checked_registry registry)
       | _ => False
       end)
  ∧ (∀ m r c constructed s1,
       model = Some m →
       checked_registry registry = Some r →
       ¬ (only_fields ≠ [] ∧ exclude_fields ≠ []) →
       connection = Some c →
       is_Connection c = false →
       construct_fields cls m r only_fields exclude_fields batching
         connection_field_factory s = (Ok constructed, s1) →
       __init_subclass_with_meta__ cls model registry skip_registry
         only_fields exclude_fields connection connection_class use_connection
         interfaces id batching connection_field_factory _meta s =
         (Raise (AssertionError
                   ("The connection must be a Connection. Received "
                    ++ connection_name c)), s1)).
Proof.
  split.
  - intros Hbad. unfold __init_subclass_with_meta__.
    destruct model as [m|]; [|eexists; split; [done|]; by left].
    destruct (checked_registry registry) as [r|];
      [|eexists; split; [done|]; by right].
    case_decide as Hboth.
    + eexists. split; [done|]. by split.
    + by destruct Hbad as [?|[?|?]].
  - intros m r c constructed s1 -> Hr Hboth -> Hc Hfields.
    unfold __init_subclass_with_meta__. rewrite Hr.
    rewrite decide_False by done.
    unfold bind at 1. rewrite Hfields.
    unfold bind at 1.
    destruct use_connection as [[]|], interfaces as [|i rest]; cbn;
      try (by rewrite Hc);
      destruct (is_Node i || existsb is_Node rest); by rewrite Hc.
Qed.

End RejectedDeclarations.

(** ** resolve_id *)

(** X14. [resolve_id] fails only for an instance without primary key
    values, and then with the [IndexError] of the empty list; it
    returns the bare value for a single key and the tuple of all
    values for two or more. *)
Theorem resolve_id_cases (keys : list value) :
  (keys = [] ↔ ∃ e, resolve_id keys = Fails e)
  ∧ (∀ key, resolve_id keys = Returns (IdScalar key) ↔ keys = [key])
  ∧ (∀ ks, resolve_id keys = Returns (IdTuple ks)
           ↔ ks = keys ∧ (2 ≤ List.length keys)%nat)
  ∧ (∀ e, resolve_id keys = Fails e →
          e = IndexError "list index out of range").
Proof.
  unfold resolve_id. destruct keys as [|k1 [|k2 keys]]; cbn.
  - split_and!; [naive_solver | naive_solver | | by intros e [= <-]].
    intros ks. split; [done | cbn; lia].
  - split_and!; [| | |done].
    + split; [done | by intros [e ?]].
    + intros key. split; [by intros [= ->] | by intros [= ->]].
    + intros ks. split; [done | cbn; lia].
  - rewrite decide_True by lia. split_and!; [| | |done].
    + split; [done | by intros [e ?]].
    + intros key. split; done.
    + intros ks. split; [intros [= <-]; split; [done | lia] | by intros [-> _]].
Qed.

(** ** The sorting connection field *)

Section SortingConnectionFieldMore.
Context `{Utils}.

(** X15. Whenever the constructor of the sorting connection field reaches
    the base class, every keyword but [sort] is passed on as given; a
    [sort] that was given is passed on unless it is [None], when it is
    dropped; and for a class that is not a connection that is all: the
    keywords are passed on as they are, but for a [sort] of [None]. *)
Theorem connection_field_keeps_keywords (type : field_type)
    (kwargs kwargs' : gmap string value) :
  SQLAlchemyConnectionField__init__ type kwargs = Ok kwargs' →
  (∀ k, k ≠ "sort" → kwargs' !! k = kwargs !! k)
  ∧ (∀ v, kwargs !! "sort" = Some v →
          kwargs' !! "sort" = match v with VNone => None | _ => Some v end)
  ∧ (∀ name, type = OtherType name →
             kwargs' = match kwargs !! "sort" with
                       | Some VNone => delete "sort" kwargs
                       | _ => kwargs
                       end).
Proof.
  unfold SQLAlchemyConnectionField__init__.
  destruct (kwargs !! "sort") as [v|] eqn:Hsort.
  - destruct v; intros [= <-]; split_and!;
      try (intros k Hk; by rewrite ?lookup_delete_ne);
      try (intros v' [= <-]; by rewrite ?lookup_delete_eq);
      try done.
  - destruct type as [name [model|]|name|]; try done.
    + destruct (sort_argument_for_model model) as [argument|]; [|done].
      intros [= <-]. split_and!; [|done|done].
      intros k Hk. by rewrite lookup_insert_ne.
    + by intros [= <-].
Qed.

End SortingConnectionFieldMore.

Lemma connection_field_keeps_keywords_witness :
  @SQLAlchemyConnectionField__init__ utils_example
    (ConnectionClass "ReporterConnection" (Some model_reporter))
    {["description" := VStr "all"]} =
    Ok {["sort" := VObj 2; "description" := VStr "all"]}
  ∧ ∀ k, k ≠ "sort" →
         ({["sort" := VObj 2; "description" := VStr "all"]}
            : gmap string value) !! k =
         ({["description" := VStr "all"]} : gmap string value) !! k.
Proof.
  split; [reflexivity|].
  apply (@connection_field_keeps_keywords utils_example
           (ConnectionClass "ReporterConnection" (Some model_reporter))
           {["description" := VStr "all"]}
           {["sort" := VObj 2; "description" := VStr "all"]}).
  reflexivity.
Defined.

(** ** The connection resolver *)

Section ConnectionResolverFacts.
Context `{Utils} `{Relay}.

(** X16. What a caller gets from [connection_resolver] in the end is what
    [resolve_connection] makes of what it gets from the resolver in
    the end, whether the resolver returns a value or a promise; and
    [connection_resolver] returns a promise exactly when the resolver
    does. *)
Theorem connection_resolver_settles
    (resolver : pyobject → nat → connection_args →
                res (eventual (option resolved_value)))
    (connection_type : ConnectionType) (model : Model)
    (root : pyobject) (info_context : nat) (args : connection_args) :
  settled (connection_resolver resolver connection_type model root
             info_context args) =
    match settled (resolver root info_context args) with
    | Ok resolved =>
        resolve_connection connection_type model info_context args resolved
    | Raise e => Raise e
    end
  ∧ ((∃ p, connection_resolver resolver connection_type model root
             info_context args = Ok (Thenable p))
     ↔ (∃ p, resolver root info_context args = Ok (Thenable p))).
Proof.
  unfold connection_resolver.
  destruct (resolver root info_context args) as [[value|[value|e]]|e]; cbn.
  - destruct (resolve_connection _ _ _ _ value); cbn;
      (split; [done|]); split; by intros [p ?].
  - destruct (resolve_connection _ _ _ _ value); cbn;
      (split; [done|]); split; intros _; by eexists.
  - split; [done|]. split; intros _; by eexists.
  - split; [done|]. split; by intros [p ?].
Qed.

End ConnectionResolverFacts.

(** ** The connection field factory *)

Section ConnectionFieldFactoryFacts.
Context `{RegistryLookup}.

Lemma factory_after_calls (calls : list factory_call) (m : module_state) :
  __connection_field_factory (foldl do_call m calls) =
    match last calls with
    | Some c => factory_of_call c
    | None => __connection_field_factory m
    end
  ∧ log (foldl do_call m calls) = log m ++ omap warning_of_call calls.
Proof.
  induction calls as [|c calls IH] using rev_ind.
  - cbn. by rewrite app_nil_r.
  - rewrite foldl_app, last_snoc, omap_app. cbn [foldl].
    destruct IH as [_ IHlog].
    destruct c; cbn; rewrite ?IHlog, ?app_nil_r, ?app_assoc; done.
Qed.

(** X17. After any sequence of calls of the four functions that set the
    factory, [create_connection_field] is answered by the factory of
    the last call alone: the factory registered, the old-style factory
    method applied to the type that the registry holds for the model
    of the relationship, or after an unregistration the default, which
    makes an unsorted connection field of the connection of that type
    and fails when the registry holds no type. The log has grown by
    one warning for each call of a deprecated function, and both
    warnings name [registerConnectionFieldFactory]. *)
Theorem create_connection_field_after_calls (calls : list factory_call)
    (m : module_state) (relationship : Relationship) (registry : nat) :
  let m' := foldl do_call m calls in
  let _type := get_type_for_model registry (mapper_entity relationship) in
  create_connection_field relationship registry m' =
    match last calls with
    | None => create_connection_field relationship registry m
    | Some (call_register connection_factory) =>
        connection_factory relationship registry
    | Some (call_registerOld factoryMethod) => factoryMethod _type
    | Some call_unregister | Some call_unregisterOld =>
        match _type with
        | Some info => Returns (UnsortedField (info_connection info))
        | None =>
            Fails (AttributeError "'NoneType' object has no attribute '_meta'")
        end
    end
  ∧ log m' = log m ++ omap warning_of_call calls
  ∧ Forall (fun msg =>
              String.prefix "registerConnectionFieldFactory is deprecated" msg
              = true)
      (omap warning_of_call calls).
Proof.
  intros m' _type.
  destruct (factory_after_calls calls m) as [Hfactory Hlog].
  split_and!; [|done|].
  - unfold create_connection_field. fold m'. unfold m' at 1.
    rewrite Hfactory.
    destruct (last calls) as [[]|]; try done.
  - clear. induction calls as [|c calls IH]; [done|].
    destruct c; cbn; try done; by constructor.
Qed.

End ConnectionFieldFactoryFacts.
